(** * butler: the wharf operations of the command line ([wharf_ops.go]) and
    the retrying copy of [cp]

    The Go code is glue around external collaborators (the operating system,
    [itchio/wharf]'s [tlc], [pwr] and [wire] packages, [comm]).  Every call
    that leaves the program is an event answered by the environment; a Go
    function becomes a program over those events.  Running a program under
    a handler gives its outcome and the trace of the calls it made, and the
    theorems hold for every handler, that is for every behaviour of the
    collaborators. *)

From Stdlib Require Import String Ascii List ZArith Bool Arith Lia.
From Equations Require Import Equations.
From Equations.Prop Require Import Logic.
Import ListNotations.
Local Open Scope string_scope.
Local Open Scope list_scope.

Set Implicit Arguments.
Set Warnings "-register-all".

(** ** Programs over events *)

(** The text of a message: a literal, or a format with its arguments as
    handed to [fmt.Sprintf]-like functions ([comm.Dief], [fmt.Errorf]). *)
Inductive arg : Type :=
| AInt (n : Z)                      (* an int, printed with %d *)
| AUint32 (n : Z)                   (* a uint32, printed with %x *)
| ABytes (b : list Byte.byte)       (* a []byte, printed with %x *)
| AStr (s : string)                 (* a string, printed with %s *)
| AHumanBytes (n : Z)               (* humanize.Bytes(uint64(n)) *)
| ADuration (d : Z)                 (* d.String() of a time.Duration *)
| APerSecond (n : Z) (d : Z).       (* humanize.Bytes(uint64(float64(n) / d.Seconds())) *)

Inductive text : Type :=
| Lit (s : string)
| Sprintf (format : string) (args : list arg).

(** A Go [error] is known to this code through [err.Error()] only. *)
Definition error : Type := text.

Definition result (A : Type) : Type := (A + error)%type.

Section Prog.
Variable E : Type -> Type.

(** [Die] is [comm.Die]/[comm.Dief]: the message is reported and the
    process ends, nothing after it runs.  [Panic] is a run-time panic of
    Go itself (an index out of range). *)
Inductive prog (A : Type) : Type :=
| Ret (a : A)
| Die (m : text)
| Panic (m : text)
| Vis (X : Type) (e : E X) (k : X -> prog A).

Arguments Ret {A} a.
Arguments Die {A} m.
Arguments Panic {A} m.
Arguments Vis {A X} e k.

Fixpoint bind {A B : Type} (p : prog A) (f : A -> prog B) : prog B :=
  match p with
  | Ret a => f a
  | Die m => Die m
  | Panic m => Panic m
  | Vis e k => Vis e (fun x => bind (k x) f)
  end.

Definition trigger {X : Type} (e : E X) : prog X := Vis e (fun x => Ret x).

(** One call of the program and the environment's answer to it. *)
Record call : Type := Call { call_type : Type; call_event : E call_type; call_answer : call_type }.

Inductive outcome (A : Type) : Type :=
| Done (a : A)
| Died (m : text)
| Panicked (m : text).

Arguments Done {A} a.
Arguments Died {A} m.
Arguments Panicked {A} m.

Definition handler (W : Type) : Type := forall X : Type, E X -> W -> X * W.

Fixpoint run {W A : Type} (h : handler W) (p : prog A) (w : W)
  : outcome A * W * list call :=
  match p with
  | Ret a => (Done a, w, [])
  | Die m => (Died m, w, [])
  | Panic m => (Panicked m, w, [])
  | Vis e k =>
      let '(x, w1) := h _ e w in
      let '(o, w2, tr) := run h (k x) w1 in
      (o, w2, Call e x :: tr)
  end.

Definition outcome_of {W A : Type} (r : outcome A * W * list call) : outcome A := fst (fst r).
Definition world_of {W A : Type} (r : outcome A * W * list call) : W := snd (fst r).
Definition trace_of {W A : Type} (r : outcome A * W * list call) : list call := snd r.

(** [defer d rest]: Go's [defer d] followed by the rest of the function
    body.  [d] runs when the function returns or panics; a [Die] in
    [rest] ends the process before. *)
Fixpoint defer {A : Type} (d : prog unit) (rest : prog A) : prog A :=
  match rest with
  | Ret a => bind d (fun _ => Ret a)
  | Die m => Die m
  | Panic m => bind d (fun _ => Panic m)
  | Vis e k => Vis e (fun x => defer d (k x))
  end.
End Prog.

Arguments Ret {E A} _.
Arguments Die {E A} _.
Arguments Panic {E A} _.
Arguments Vis {E A X} _ _.
Arguments Call {E call_type} _ _.
Arguments Done {A} _.
Arguments Died {A} _.
Arguments Panicked {A} _.
Arguments trigger {E X} _.

Declare Scope prog_scope.
Delimit Scope prog_scope with prog.
Notation "x <- p ;; q" := (bind p (fun x => q))
  (at level 61, p at next level, right associativity) : prog_scope.
Notation "' pat <- p ;; q" := (bind p (fun x => match x with pat => q end))
  (at level 61, pat pattern, p at next level, right associativity) : prog_scope.
Notation "p ;; q" := (bind p (fun _ => q))
  (at level 61, right associativity) : prog_scope.
Local Open Scope prog_scope.

(** A call and its answer, in a trace. *)
Notation "e '|->' a" := (Call e a) (at level 50, no associativity).

(** ** Data of the collaborators *)

(** [os.FileInfo], as far as the code looks at it. *)
Record FileInfo : Type := { Name : string; IsDir : bool }.

(** [*os.File] *)
Record File : Type := { fd : Z; file_name : string }.

Module tlc.
Record Dir : Type := { dir_Path : string; dir_Mode : Z }.
Record FileEntry : Type := { file_Path : string; file_Mode : Z; file_Size : Z; file_Offset : Z }.
Record Symlink : Type := { link_Path : string; link_Mode : Z; link_Dest : string }.

(** [tlc.Container] *)
Record Container : Type :=
  { Size : Z; Dirs : list Dir; Files : list FileEntry; Symlinks : list Symlink }.

(** [&tlc.Container{}]: every field at its zero value. *)
Definition empty : Container := {| Size := 0; Dirs := []; Files := []; Symlinks := [] |}.

Definition FilterFunc : Type := FileInfo -> bool.
End tlc.

Module sync.
(** [sync.BlockHash]: the weak hash is a uint32, the strong hash a byte slice. *)
Record BlockHash : Type := { WeakHash : Z; StrongHash : list Byte.byte }.
End sync.

(** ** [filterDirs] *)

(** [strings.HasPrefix(s, prefix)] *)
Definition strings_HasPrefix (s pre : string) : bool := String.prefix pre s.

Definition ignoredDirs : list string := [".git"; ".cvs"; ".svn"].

(** The [for _, dir := range ignoredDirs] loop of [filterDirs]: [false] at
    the first ignored prefix, [true] when the list is exhausted. *)
Fixpoint filterDirs_loop (name : string) (dirs : list string) : bool :=
  match dirs with
  | [] => true
  | dir :: rest => if strings_HasPrefix name dir then false else filterDirs_loop name rest
  end.

Definition filterDirs (fileInfo : FileInfo) : bool :=
  let name := Name fileInfo in
  filterDirs_loop name ignoredDirs.

(** The names [filterDirs] rejects. *)
Definition ignored_name (name : string) : Prop :=
  exists rest, name = (".git" ++ rest)%string \/
               name = (".cvs" ++ rest)%string \/
               name = (".svn" ++ rest)%string.

(** ** [pwr], [wire], [counter]: the values the code builds and passes *)

Module comm.
(** [comm.NewStateConsumer()]: the progress reporter handed to [pwr]. *)
Inductive Consumer : Type := NewStateConsumer.
End comm.

Module counter.
(** [counter.NewWriter(w)]: a writer that counts the bytes it passes to [w]. *)
Inductive Writer : Type := NewWriter (w : File).
End counter.

Module pwr.
Inductive CompressionAlgorithm : Type :=
| CompressionAlgorithm_UNCOMPRESSED
| CompressionAlgorithm_BROTLI.

Record CompressionSettings : Type :=
  { Algorithm : CompressionAlgorithm; Quality : Z }.

(** The magic numbers of [pwr]; their values are constants of that
    library, the code only names them. *)
Inductive Magic : Type := PatchMagic | SignatureMagic.

Record DiffContext : Type :=
  { SourceContainer : tlc.Container;
    SourcePath : string;
    TargetContainer : tlc.Container;
    TargetSignature : list sync.BlockHash;
    Consumer : comm.Consumer;
    Compression : CompressionSettings;
    ReusedBytes : Z;
    FreshBytes : Z }.

Record ApplyContext : Type :=
  { TargetPath : string; OutputPath : string; apply_Consumer : comm.Consumer }.

(** The messages this code hands to a wire: [*pwr.SignatureHeader],
    [*tlc.Container], [*pwr.BlockHash]. *)
Inductive Message : Type :=
| SignatureHeader (compression : CompressionSettings)
| Container (c : tlc.Container)
| BlockHash (weakHash : Z) (strongHash : list Byte.byte).
End pwr.

Module wire.
(** [*wire.WriteContext]: over a plain writer, or what [pwr.CompressWire]
    built over another context. *)
Inductive WriteContext : Type :=
| NewWriteContext (w : File)
| Wrapped (id : Z) (inner : WriteContext) (compression : pwr.CompressionSettings).
End wire.

(** ** The calls of package [main] into its collaborators *)

Inductive Ev : Type -> Type :=
(* time *)
| time_Now : Ev Z
| time_Since (start : Z) : Ev Z
(* comm *)
| comm_Logf (format : string) (args : list arg) : Ev unit
| comm_Debugf (format : string) (args : list arg) : Ev unit
| comm_StartProgress : Ev unit
| comm_EndProgress : Ev unit
(* os, ioutil *)
| os_Lstat (name : string) : Ev (result FileInfo)
| os_Open (name : string) : Ev (result File)
| os_Create (name : string) : Ev (result File)
| File_Close (f : File) : Ev (option error)
| os_TempDir : Ev string
| ioutil_TempDir (dir pre : string) : Ev (result string)
| os_RemoveAll (path : string) : Ev (option error)
(* tlc *)
| tlc_Walk (BasePath : string) (filter : option tlc.FilterFunc) : Ev (result tlc.Container)
(* pwr *)
| pwr_ComputeSignature (container : tlc.Container) (basePath : string) (consumer : comm.Consumer)
  : Ev (result (list sync.BlockHash))
| pwr_HashBlocks (container : tlc.Container) (basePath : string) (consumer : comm.Consumer)
  : Ev (list sync.BlockHash * option error)   (* inside pwr.ComputeSignatureToWriter *)
| pwr_ReadSignature (signatureReader : File) : Ev (result (tlc.Container * list sync.BlockHash))
| pwr_CompressionDefault : Ev pwr.CompressionSettings
| pwr_CompressWire (ctx : wire.WriteContext) (compression : pwr.CompressionSettings)
  : Ev (result wire.WriteContext)
| DiffContext_WriteRecipe (dctx : pwr.DiffContext) (patchWriter signatureWriter : counter.Writer)
  : Ev (pwr.DiffContext * option error)
| ApplyContext_ApplyRecipe (actx : pwr.ApplyContext) (patchReader : File) : Ev (option error)
(* wire, counter *)
| WriteContext_WriteMagic (w : wire.WriteContext) (magic : pwr.Magic) : Ev (option error)
| WriteContext_WriteMessage (w : wire.WriteContext) (msg : pwr.Message) : Ev (option error)
| WriteContext_Close (w : wire.WriteContext) : Ev (option error)
| Writer_Count (w : counter.Writer) : Ev Z.

Definition M : Type -> Type := prog Ev.

(** Modelled from the spec: [comm.Die(msg)] belongs to the package [comm],
    which is not among the sources.  The spec (7) calls these errors
    "fatal" and (4.6) has [verify] "abort": the message is reported and the
    process ends there. *)
Definition comm_Die {A : Type} (msg : text) : M A := Die msg.

(** Modelled from the spec: [comm.Dief(format, args...)], as [comm_Die] on
    the formatted message. *)
Definition comm_Dief {A : Type} (format : string) (args : list arg) : M A :=
  Die (Sprintf format args).

(** [must(err)] of [main.go]: dies with [err.Error()] unless [err] is nil. *)
Definition must (err : option error) : M unit :=
  match err with
  | Some e => comm_Die e
  | None => Ret tt
  end.

(** [x, err := f(...); must(err)] *)
Definition must_val {A : Type} (r : result A) : M A :=
  match r with
  | inl x => Ret x
  | inr e => comm_Die e
  end.

(** [s[i]] on a slice: a run-time panic when [i] is out of range. *)
Definition index {A : Type} (s : list A) (i : nat) : M A :=
  match nth_error s i with
  | Some x => Ret x
  | None => Panic (Lit "runtime error: index out of range")
  end.

(** [bytes.Equal(a, b)] *)
Fixpoint bytes_Equal (a b : list Byte.byte) : bool :=
  match a, b with
  | [], [] => true
  | x :: a', y :: b' => Byte.eqb x y && bytes_Equal a' b'
  | _, _ => false
  end.

(** [int32(n)] of a Go [int]: the low 32 bits, read as signed. *)
Definition int32 (n : Z) : Z := (n + 2 ^ 31) mod 2 ^ 32 - 2 ^ 31.

(** Modelled from the spec: [pwr.ComputeSignatureToWriter] belongs to
    [itchio/wharf] and is not among the sources.  The spec (4.3): "A
    ComputeSignatureToWriter variant streams each hash to a callback".  The
    environment gives the block hashes it computes, in order, and the error
    that ended the hashing if there was one; the callback is run on each
    hash in that order and its first error ends the call. *)
Fixpoint stream_hashes (sigWriter : sync.BlockHash -> M (option error))
         (hashes : list sync.BlockHash) : M (option error) :=
  match hashes with
  | [] => Ret None
  | hash :: rest =>
      err <- sigWriter hash;;
      match err with
      | Some e => Ret (Some e)
      | None => stream_hashes sigWriter rest
      end
  end.

(** Modelled from the spec: [pwr.ComputeSignatureToWriter], see
    [stream_hashes]; [pwr_HashBlocks] is the hashing inside it. *)
Definition pwr_ComputeSignatureToWriter (container : tlc.Container) (basePath : string)
           (consumer : comm.Consumer) (sigWriter : sync.BlockHash -> M (option error))
  : M (option error) :=
  '(hashes, failure) <- trigger (pwr_HashBlocks container basePath consumer);;
  err <- stream_hashes sigWriter hashes;;
  match err with
  | Some e => Ret (Some e)
  | None => Ret failure
  end.

(** ** The package-level flags of [main.go] *)

Record DiffArgs : Type :=
  { diff_old : string; diff_new : string; diff_patch : string;
    diff_verify : bool; diff_quality : Z }.

Record ApplyArgs : Type :=
  { apply_patch : string; apply_old : string; apply_dir : string;
    apply_verify : string; apply_reverse : string; apply_inplace : bool }.

(** Package-level variables are in scope of every function of the package:
    each function below takes them as its first argument. *)
Record Globals : Type := { diffArgs : DiffArgs; applyArgs : ApplyArgs }.

(** ** [wharf_ops.go] *)

(** The body of the [for i, refHash := range refHashes] loop of [verify],
    from index [i] on. *)
Fixpoint verify_loop (hashes : list sync.BlockHash) (i : nat)
         (refHashes : list sync.BlockHash) : M unit :=
  match refHashes with
  | [] => Ret tt
  | refHash :: rest =>
      hash <- index hashes i;;
      (if negb (sync.WeakHash refHash =? sync.WeakHash hash)%Z
       then comm_Dief "At block %d, expected weak hash %x, got %x"
              [AInt (Z.of_nat i); AUint32 (sync.WeakHash refHash); AUint32 (sync.WeakHash hash)]
       else Ret tt);;
      (if negb (bytes_Equal (sync.StrongHash refHash) (sync.StrongHash hash))
       then comm_Dief "At block %d, expected weak hash %x, got %x"
              [AInt (Z.of_nat i); ABytes (sync.StrongHash refHash); ABytes (sync.StrongHash hash)]
       else Ret tt);;
      verify_loop hashes (S i) rest
  end.

Definition verify (g : Globals) (signature output : string) : M unit :=
  startTime <- trigger time_Now;;
  signatureReader <- (r <- trigger (os_Open signature);; must_val r);;
  defer (_ <- trigger (File_Close signatureReader);; Ret tt)
    ('(refContainer, refHashes) <- (r <- trigger (pwr_ReadSignature signatureReader);; must_val r);;
     trigger comm_StartProgress;;
     r <- trigger (pwr_ComputeSignature refContainer output comm.NewStateConsumer);;
     trigger comm_EndProgress;;
     hashes <- must_val r;;
     (if negb (length hashes =? length refHashes)%nat
      then must (Some (Sprintf "Expected %d blocks, got %d."
                         [AInt (Z.of_nat (length refHashes)); AInt (Z.of_nat (length hashes))]))
      else Ret tt);;
     verify_loop hashes 0 refHashes;;
     elapsedTime <- trigger (time_Since startTime);;
     trigger (comm_Logf "Verified %s in %s (%s/s)"
                [AHumanBytes (tlc.Size refContainer); ADuration elapsedTime;
                 APerSecond (tlc.Size refContainer) elapsedTime])).

(** [apply] declares three parameters and reads no package-level flag (the
    call in [main.go] passes [*applyArgs.inplace] as a fourth argument,
    which this wrapper has no parameter for). *)
Definition apply (g : Globals) (recipe target output : string) : M unit :=
  recipeReader <- (r <- trigger (os_Open recipe);; must_val r);;
  let actx := {| pwr.TargetPath := target;
                 pwr.OutputPath := output;
                 pwr.apply_Consumer := comm.NewStateConsumer |} in
  trigger comm_StartProgress;;
  (err <- trigger (ApplyContext_ApplyRecipe actx recipeReader);; must err);;
  trigger comm_EndProgress;;
  trigger (comm_Debugf "Rebuilt source in %s" [AStr output]).

Definition sign (g : Globals) (output signature : string) : M unit :=
  startTime <- trigger time_Now;;
  container <- (r <- trigger (tlc_Walk output None);; must_val r);;
  signatureWriter <- (r <- trigger (os_Create signature);; must_val r);;
  compression <- trigger pwr_CompressionDefault;;
  let rawSigWire := wire.NewWriteContext signatureWriter in
  _ <- trigger (WriteContext_WriteMagic rawSigWire pwr.SignatureMagic);;
  _ <- trigger (WriteContext_WriteMessage rawSigWire (pwr.SignatureHeader compression));;
  sigWire <- (r <- trigger (pwr_CompressWire rawSigWire compression);; must_val r);;
  _ <- trigger (WriteContext_WriteMessage sigWire (pwr.Container container));;
  trigger comm_StartProgress;;
  err <- pwr_ComputeSignatureToWriter container output comm.NewStateConsumer
           (fun hash =>
              trigger (WriteContext_WriteMessage sigWire
                         (pwr.BlockHash (sync.WeakHash hash) (sync.StrongHash hash))));;
  trigger comm_EndProgress;;
  must err;;
  (err <- trigger (WriteContext_Close sigWire);; must err);;
  elapsedTime <- trigger (time_Since startTime);;
  trigger (comm_Logf "Hashed %s in %s (%s/s)"
             [AHumanBytes (tlc.Size container); ADuration elapsedTime;
              APerSecond (tlc.Size container) elapsedTime]).

(** Lines 41 to 68 of [diff]: the [if target == "/dev/null"] statement that
    assigns [targetContainer] and [targetSignature] (a nil slice unless
    assigned). *)
Definition diff_target (target : string) : M (tlc.Container * list sync.BlockHash) :=
  if String.eqb target "/dev/null" then
    Ret (tlc.empty, [])
  else
    targetInfo <- (r <- trigger (os_Lstat target);; must_val r);;
    if IsDir targetInfo then
      trigger (comm_Logf "Computing signature of %s" [AStr target]);;
      targetContainer <- (r <- trigger (tlc_Walk target (Some filterDirs));; must_val r);;
      trigger comm_StartProgress;;
      r <- trigger (pwr_ComputeSignature targetContainer target comm.NewStateConsumer);;
      trigger comm_EndProgress;;
      targetSignature <- must_val r;;
      Ret (targetContainer, targetSignature)
    else
      trigger (comm_Logf "Reading signature from file %s" [AStr target]);;
      signatureReader <- (r <- trigger (os_Open target);; must_val r);;
      '(targetContainer, targetSignature) <-
        (r <- trigger (pwr_ReadSignature signatureReader);; must_val r);;
      (err <- trigger (File_Close signatureReader);; must err);;
      Ret (targetContainer, targetSignature).

Definition diff (g : Globals) (target source recipe : string) (brotliQuality : Z) : M unit :=
  startTime <- trigger time_Now;;
  '(targetContainer, targetSignature) <- diff_target target;;
  sourceContainer <- (r <- trigger (tlc_Walk source (Some filterDirs));; must_val r);;
  recipeWriter <- (r <- trigger (os_Create recipe);; must_val r);;
  defer (_ <- trigger (File_Close recipeWriter);; Ret tt)
    (let signaturePath := (recipe ++ ".sig")%string in
     signatureWriter <- (r <- trigger (os_Create signaturePath);; must_val r);;
     defer (_ <- trigger (File_Close signatureWriter);; Ret tt)
       (let recipeCounter := counter.NewWriter recipeWriter in
        let signatureCounter := counter.NewWriter signatureWriter in
        let dctx := {| pwr.SourceContainer := sourceContainer;
                       pwr.SourcePath := source;
                       pwr.TargetContainer := targetContainer;
                       pwr.TargetSignature := targetSignature;
                       pwr.Consumer := comm.NewStateConsumer;
                       pwr.Compression :=
                         {| pwr.Algorithm := pwr.CompressionAlgorithm_BROTLI;
                            pwr.Quality := int32 (diff_quality (diffArgs g)) |};
                       pwr.ReusedBytes := 0;
                       pwr.FreshBytes := 0 |} in
        trigger (comm_Logf "Computing differences with %s" [AStr source]);;
        trigger comm_StartProgress;;
        '(dctx, err) <- trigger (DiffContext_WriteRecipe dctx recipeCounter signatureCounter);;
        must err;;
        trigger comm_EndProgress;;
        elapsedTime <- trigger (time_Since startTime);;
        recipeCount <- trigger (Writer_Count recipeCounter);;
        signatureCount <- trigger (Writer_Count signatureCounter);;
        trigger (comm_Logf "Processed %s in %s (%s/s)"
                   [AHumanBytes (tlc.Size sourceContainer); ADuration elapsedTime;
                    APerSecond (tlc.Size sourceContainer) elapsedTime]);;
        trigger (comm_Logf "Recipe is %s (%s reused, %s fresh), signature is %s"
                   [AHumanBytes recipeCount; AHumanBytes (pwr.ReusedBytes dctx);
                    AHumanBytes (pwr.FreshBytes dctx); AHumanBytes signatureCount]);;
        if diff_verify (diffArgs g) then
          tmp <- trigger os_TempDir;;
          tmpDir <- (r <- trigger (ioutil_TempDir tmp "pwr");; must_val r);;
          defer (_ <- trigger (os_RemoveAll tmpDir);; Ret tt)
            (trigger (comm_Logf "Verifying recipe by rebuilding source in %s" [AStr tmpDir]);;
             apply g recipe target tmpDir;;
             verify g signaturePath tmpDir)
        else Ret tt)).

(** ** Package [cp]: [Do] *)

(** Modelled from the spec: [retrycontext] belongs to [itchio/httpkit] and
    is not among the sources.  The spec (7): "The cp collaborator retries on
    IntegrityMismatch up to two times".  [MaxTries] bounds the tries:
    [ShouldTry] holds while fewer than [MaxTries] tries were recorded and
    [Retry] records one (after it has logged the message and slept, which
    is the event [retry_pause] below). *)
Module retrycontext.
Record Settings : Type :=
  { MaxTries : Z; Consumer : option comm.Consumer }.

Record Context : Type :=
  { settings : Settings; Tries : Z; LastMessage : string }.

(** Modelled from the spec: [retrycontext.NewDefault()], no try recorded
    yet; [Do] sets [MaxTries] itself. *)
Definition NewDefault : Context :=
  {| settings := {| MaxTries := 10; Consumer := None |}; Tries := 0; LastMessage := "" |}.

(** [rc.Settings.Consumer = c] *)
Definition set_Consumer (c : comm.Consumer) (rc : Context) : Context :=
  {| settings := {| MaxTries := MaxTries (settings rc); Consumer := Some c |};
     Tries := Tries rc; LastMessage := LastMessage rc |}.

(** [rc.Settings.MaxTries = n] *)
Definition set_MaxTries (n : Z) (rc : Context) : Context :=
  {| settings := {| MaxTries := n; Consumer := Consumer (settings rc) |};
     Tries := Tries rc; LastMessage := LastMessage rc |}.

(** Modelled from the spec: [rc.ShouldTry()], true while fewer than
    [MaxTries] tries were recorded. *)
Definition ShouldTry (rc : Context) : bool := (Tries rc <? MaxTries (settings rc))%Z.

(** Modelled from the spec: [rc.Retry(message)], which records one try
    and the message. *)
Definition Retry (message : string) (rc : Context) : Context :=
  {| settings := settings rc; Tries := (Tries rc + 1)%Z; LastMessage := message |}.
End retrycontext.

Module cp.
Section Do.
(** The errors [Try] returns come from other packages; [Do] uses
  [err.Error()], [errors.New] and [dl.IsIntegrityError] on them. *)
Variable error : Type.
Variable Error : error -> string.
Variable errors_New : string -> error.
Variable dl_IsIntegrityError : error -> bool.
(** [*mansion.Context] and [*CopyParams] are passed on to [Try] untouched. *)
Variable Context : Type.
Variable CopyParams : Type.

(** [Try] performs one copy; [Do] looks at nothing but the error it
  returns, so a call of [Try] is an event answered by the environment. *)
Inductive Ev : Type -> Type :=
| call_Try (ctx : Context) (params : CopyParams) (srcPath destPath : string) (resume : bool)
: Ev (option error)
| retry_pause (rc : retrycontext.Context) (message : string) : Ev unit.

Definition remaining (rc : retrycontext.Context) : nat :=
Z.to_nat (retrycontext.MaxTries (retrycontext.settings rc) - retrycontext.Tries rc).

(** The [for retryCtx.ShouldTry() { ... }] loop of [Do] and the [return]
  that follows it. *)
Equations? Do_loop (ctx : Context) (params : CopyParams) (srcPath destPath : string)
         (resume : bool) (retryCtx : retrycontext.Context)
: prog Ev (option error) by wf (remaining retryCtx) lt :=
Do_loop ctx params srcPath destPath resume retryCtx with inspect (retrycontext.ShouldTry retryCtx) := {
  | exist _ true Hshould =>
      err <- trigger (call_Try ctx params srcPath destPath resume);;
      match err with
      | Some e =>
          if dl_IsIntegrityError e then
            trigger (retry_pause retryCtx (Error e));;
            Do_loop ctx params srcPath destPath resume
                    (retrycontext.Retry (Error e) retryCtx)
          else
            (* if it's not an integrity error, just bubble it up *)
            Ret (Some e)
      | None => Ret None
      end
  | exist _ false Hshould =>
      Ret (Some (errors_New "cp: too many errors, giving up")) }.
Proof.
unfold remaining, retrycontext.ShouldTry, retrycontext.Retry in *. simpl.
apply Z.ltb_lt in Hshould. lia.
Qed.

Definition Do (ctx : Context) (params : CopyParams) (srcPath destPath : string)
         (resume : bool) : prog Ev (option error) :=
let retryCtx := retrycontext.NewDefault in
let retryCtx := retrycontext.set_Consumer comm.NewStateConsumer retryCtx in
let retryCtx := retrycontext.set_MaxTries 2 retryCtx in
Do_loop ctx params srcPath destPath resume retryCtx.

(** *** Behaviours of [Do] *)

(** The retry context [Do] starts from, and that after one [Retry]. *)
Definition first_context : retrycontext.Context :=
retrycontext.set_MaxTries 2
  (retrycontext.set_Consumer comm.NewStateConsumer retrycontext.NewDefault).

Definition second_context (e : error) : retrycontext.Context :=
retrycontext.Retry (Error e) first_context.

Definition is_try (c : call Ev) : bool :=
match c with
| call_Try _ _ _ _ _ |-> _ => true
| _ => false
end.

(** The number of calls of [Try] in a trace. *)
Definition tries (tr : list (call Ev)) : nat := length (filter is_try tr).

Section DoBehaviour.
Variable ctx : Context.
Variable params : CopyParams.
Variables srcPath destPath : string.
Variable resume : bool.

Let try : Ev (option error) := call_Try ctx params srcPath destPath resume.

Inductive Do_behaviour : option error -> list (call Ev) -> Prop :=
| Do_copied :
  Do_behaviour None [try |-> None]
| Do_failed e :
  dl_IsIntegrityError e = false ->
  Do_behaviour (Some e) [try |-> Some e]
| Do_copied_on_retry e1 :
  dl_IsIntegrityError e1 = true ->
  Do_behaviour None
    [try |-> Some e1; retry_pause first_context (Error e1) |-> tt; try |-> None]
| Do_failed_on_retry e1 e2 :
  dl_IsIntegrityError e1 = true ->
  dl_IsIntegrityError e2 = false ->
  Do_behaviour (Some e2)
    [try |-> Some e1; retry_pause first_context (Error e1) |-> tt; try |-> Some e2]
| Do_gave_up e1 e2 :
  dl_IsIntegrityError e1 = true ->
  dl_IsIntegrityError e2 = true ->
  Do_behaviour (Some (errors_New "cp: too many errors, giving up"))
    [try |-> Some e1; retry_pause first_context (Error e1) |-> tt;
     try |-> Some e2; retry_pause (second_context e1) (Error e2) |-> tt].
End DoBehaviour.
End Do.
End cp.

(** ** Behaviours of [verify]

    The outcome and the trace of a run of [verify signature output], case
    by case. *)

Definition weak_message (i : nat) (refHash hash : sync.BlockHash) : text :=
  Sprintf "At block %d, expected weak hash %x, got %x"
    [AInt (Z.of_nat i); AUint32 (sync.WeakHash refHash); AUint32 (sync.WeakHash hash)].

Definition strong_message (i : nat) (refHash hash : sync.BlockHash) : text :=
  Sprintf "At block %d, expected weak hash %x, got %x"
    [AInt (Z.of_nat i); ABytes (sync.StrongHash refHash); ABytes (sync.StrongHash hash)].

Section VerifyBehaviour.
Variables signature output : string.

Definition verify_reads (t : Z) (f : File)
           (r : result (tlc.Container * list sync.BlockHash)) : list (call Ev) :=
  [time_Now |-> t; os_Open signature |-> inl f; pwr_ReadSignature f |-> r].

Definition verify_hashes (refContainer : tlc.Container)
           (r : result (list sync.BlockHash)) : list (call Ev) :=
  [comm_StartProgress |-> tt;
   pwr_ComputeSignature refContainer output comm.NewStateConsumer |-> r;
   comm_EndProgress |-> tt].

Inductive verify_behaviour : outcome unit -> list (call Ev) -> Prop :=
| verify_open_failed t e :
    verify_behaviour (Died e) [time_Now |-> t; os_Open signature |-> inr e]
| verify_read_failed t f e :
    verify_behaviour (Died e) (verify_reads t f (inr e))
| verify_hashing_failed t f refContainer refHashes e :
    verify_behaviour (Died e)
      (verify_reads t f (inl (refContainer, refHashes)) ++ verify_hashes refContainer (inr e))
| verify_length_mismatch t f refContainer refHashes hashes :
    length hashes <> length refHashes ->
    verify_behaviour
      (Died (Sprintf "Expected %d blocks, got %d."
               [AInt (Z.of_nat (length refHashes)); AInt (Z.of_nat (length hashes))]))
      (verify_reads t f (inl (refContainer, refHashes))
         ++ verify_hashes refContainer (inl hashes))
| verify_weak_mismatch t f refContainer refHashes hashes i refHash hash :
    length hashes = length refHashes ->
    firstn i refHashes = firstn i hashes ->
    nth_error refHashes i = Some refHash ->
    nth_error hashes i = Some hash ->
    sync.WeakHash refHash <> sync.WeakHash hash ->
    verify_behaviour (Died (weak_message i refHash hash))
      (verify_reads t f (inl (refContainer, refHashes))
         ++ verify_hashes refContainer (inl hashes))
| verify_strong_mismatch t f refContainer refHashes hashes i refHash hash :
    length hashes = length refHashes ->
    firstn i refHashes = firstn i hashes ->
    nth_error refHashes i = Some refHash ->
    nth_error hashes i = Some hash ->
    sync.WeakHash refHash = sync.WeakHash hash ->
    sync.StrongHash refHash <> sync.StrongHash hash ->
    verify_behaviour (Died (strong_message i refHash hash))
      (verify_reads t f (inl (refContainer, refHashes))
         ++ verify_hashes refContainer (inl hashes))
| verify_succeeds t f refContainer refHashes elapsedTime closed :
    verify_behaviour (Done tt)
      (verify_reads t f (inl (refContainer, refHashes))
         ++ verify_hashes refContainer (inl refHashes)
         ++ [time_Since t |-> elapsedTime;
             comm_Logf "Verified %s in %s (%s/s)"
               [AHumanBytes (tlc.Size refContainer); ADuration elapsedTime;
                APerSecond (tlc.Size refContainer) elapsedTime] |-> tt;
             File_Close f |-> closed]).
End VerifyBehaviour.

(** ** Behaviours of [apply] *)

Section ApplyBehaviour.
Variables recipe target output : string.

Definition apply_context : pwr.ApplyContext :=
  {| pwr.TargetPath := target; pwr.OutputPath := output;
     pwr.apply_Consumer := comm.NewStateConsumer |}.

Inductive apply_behaviour : outcome unit -> list (call Ev) -> Prop :=
| apply_open_failed e :
    apply_behaviour (Died e) [os_Open recipe |-> inr e]
| apply_recipe_failed recipeReader e :
    apply_behaviour (Died e)
      [os_Open recipe |-> inl recipeReader;
       comm_StartProgress |-> tt;
       ApplyContext_ApplyRecipe apply_context recipeReader |-> Some e]
| apply_rebuilt recipeReader :
    apply_behaviour (Done tt)
      [os_Open recipe |-> inl recipeReader;
       comm_StartProgress |-> tt;
       ApplyContext_ApplyRecipe apply_context recipeReader |-> None;
       comm_EndProgress |-> tt;
       comm_Debugf "Rebuilt source in %s" [AStr output] |-> tt].
End ApplyBehaviour.

(** ** Behaviours of [diff] *)

Section TargetBehaviour.
Variable target : string.

(** [target] is a directory: it is walked and hashed. *)
Inductive target_walked
  : outcome (tlc.Container * list sync.BlockHash) -> list (call Ev) -> Prop :=
| target_walk_failed e :
    target_walked (Died e) [tlc_Walk target (Some filterDirs) |-> inr e]
| target_hashing_failed targetContainer e :
    target_walked (Died e)
      [tlc_Walk target (Some filterDirs) |-> inl targetContainer;
       comm_StartProgress |-> tt;
       pwr_ComputeSignature targetContainer target comm.NewStateConsumer |-> inr e;
       comm_EndProgress |-> tt]
| target_hashed targetContainer targetSignature :
    target_walked (Done (targetContainer, targetSignature))
      [tlc_Walk target (Some filterDirs) |-> inl targetContainer;
       comm_StartProgress |-> tt;
       pwr_ComputeSignature targetContainer target comm.NewStateConsumer
         |-> inl targetSignature;
       comm_EndProgress |-> tt].

(** [target] is anything else: it is opened and read as a signature file. *)
Inductive target_read
  : outcome (tlc.Container * list sync.BlockHash) -> list (call Ev) -> Prop :=
| target_open_failed e :
    target_read (Died e) [os_Open target |-> inr e]
| target_parse_failed signatureReader e :
    target_read (Died e)
      [os_Open target |-> inl signatureReader;
       pwr_ReadSignature signatureReader |-> inr e]
| target_close_failed signatureReader recorded e :
    target_read (Died e)
      [os_Open target |-> inl signatureReader;
       pwr_ReadSignature signatureReader |-> inl recorded;
       File_Close signatureReader |-> Some e]
| target_parsed signatureReader targetContainer targetSignature :
    target_read (Done (targetContainer, targetSignature))
      [os_Open target |-> inl signatureReader;
       pwr_ReadSignature signatureReader |-> inl (targetContainer, targetSignature);
       File_Close signatureReader |-> None].

Inductive diff_target_behaviour
  : outcome (tlc.Container * list sync.BlockHash) -> list (call Ev) -> Prop :=
| target_sentinel :
    target = "/dev/null" ->
    diff_target_behaviour (Done (tlc.empty, [])) []
| target_lstat_failed e :
    target <> "/dev/null" ->
    diff_target_behaviour (Died e) [os_Lstat target |-> inr e]
| target_directory targetInfo o tr :
    target <> "/dev/null" ->
    IsDir targetInfo = true ->
    target_walked o tr ->
    diff_target_behaviour o
      (os_Lstat target |-> inl targetInfo
         :: comm_Logf "Computing signature of %s" [AStr target] |-> tt
         :: tr)
| target_signature_file targetInfo o tr :
    target <> "/dev/null" ->
    IsDir targetInfo = false ->
    target_read o tr ->
    diff_target_behaviour o
      (os_Lstat target |-> inl targetInfo
         :: comm_Logf "Reading signature from file %s" [AStr target] |-> tt
         :: tr).
End TargetBehaviour.

Section DiffBehaviour.
Variable g : Globals.
Variables target source recipe : string.

Definition signaturePath : string := (recipe ++ ".sig")%string.

(** The [pwr.DiffContext] that [diff] builds. *)
Definition diff_context (targetContainer : tlc.Container)
           (targetSignature : list sync.BlockHash)
           (sourceContainer : tlc.Container) : pwr.DiffContext :=
  {| pwr.SourceContainer := sourceContainer;
     pwr.SourcePath := source;
     pwr.TargetContainer := targetContainer;
     pwr.TargetSignature := targetSignature;
     pwr.Consumer := comm.NewStateConsumer;
     pwr.Compression :=
       {| pwr.Algorithm := pwr.CompressionAlgorithm_BROTLI;
          pwr.Quality := int32 (diff_quality (diffArgs g)) |};
     pwr.ReusedBytes := 0;
     pwr.FreshBytes := 0 |}.

(** The source is walked and the recipe file created. *)
Definition diff_opens (sourceContainer : tlc.Container) (recipeWriter : File)
  : list (call Ev) :=
  [tlc_Walk source (Some filterDirs) |-> inl sourceContainer;
   os_Create recipe |-> inl recipeWriter].

(** The signature file is created and [WriteRecipe] called on both. *)
Definition diff_writes (dctx : pwr.DiffContext) (recipeWriter signatureWriter : File)
           (written : pwr.DiffContext * option error) : list (call Ev) :=
  [os_Create signaturePath |-> inl signatureWriter;
   comm_Logf "Computing differences with %s" [AStr source] |-> tt;
   comm_StartProgress |-> tt;
   DiffContext_WriteRecipe dctx (counter.NewWriter recipeWriter)
     (counter.NewWriter signatureWriter) |-> written].

(** The statistics logged once the recipe is written. *)
Definition diff_reports (startTime : Z) (sourceContainer : tlc.Container)
           (dctx : pwr.DiffContext) (recipeWriter signatureWriter : File)
           (elapsedTime recipeCount signatureCount : Z) : list (call Ev) :=
  [comm_EndProgress |-> tt;
   time_Since startTime |-> elapsedTime;
   Writer_Count (counter.NewWriter recipeWriter) |-> recipeCount;
   Writer_Count (counter.NewWriter signatureWriter) |-> signatureCount;
   comm_Logf "Processed %s in %s (%s/s)"
     [AHumanBytes (tlc.Size sourceContainer); ADuration elapsedTime;
      APerSecond (tlc.Size sourceContainer) elapsedTime] |-> tt;
   comm_Logf "Recipe is %s (%s reused, %s fresh), signature is %s"
     [AHumanBytes recipeCount; AHumanBytes (pwr.ReusedBytes dctx);
      AHumanBytes (pwr.FreshBytes dctx); AHumanBytes signatureCount] |-> tt].

(** The calls of a run in which the recipe and its signature were
    written: from the walk of the source to the statistics. *)
Inductive diff_written (startTime : Z) (targetContainer : tlc.Container)
          (targetSignature : list sync.BlockHash) (recipeWriter signatureWriter : File)
  : list (call Ev) -> Prop :=
| diff_written_intro sourceContainer dctx elapsedTime recipeCount signatureCount :
    diff_written startTime targetContainer targetSignature recipeWriter signatureWriter
      (diff_opens sourceContainer recipeWriter
         ++ diff_writes (diff_context targetContainer targetSignature sourceContainer)
              recipeWriter signatureWriter (dctx, None)
         ++ diff_reports startTime sourceContainer dctx recipeWriter signatureWriter
              elapsedTime recipeCount signatureCount).

(** The deferred closing of the two files, last deferred first. *)
Definition diff_closes (recipeWriter signatureWriter : File)
           (closedSignature closedRecipe : option error) : list (call Ev) :=
  [File_Close signatureWriter |-> closedSignature;
   File_Close recipeWriter |-> closedRecipe].

(** The temporary directory is created. *)
Definition diff_tempdir (tmp tmpDir : string) : list (call Ev) :=
  [os_TempDir |-> tmp;
   ioutil_TempDir tmp "pwr" |-> inl tmpDir;
   comm_Logf "Verifying recipe by rebuilding source in %s" [AStr tmpDir] |-> tt].

Inductive diff_behaviour : outcome unit -> list (call Ev) -> Prop :=
| diff_target_died t m tr :
    diff_target_behaviour target (Died m) tr ->
    diff_behaviour (Died m) (time_Now |-> t :: tr)
| diff_walk_failed t tc ts tr e :
    diff_target_behaviour target (Done (tc, ts)) tr ->
    diff_behaviour (Died e)
      (time_Now |-> t :: tr ++ [tlc_Walk source (Some filterDirs) |-> inr e])
| diff_create_failed t tc ts tr sourceContainer e :
    diff_target_behaviour target (Done (tc, ts)) tr ->
    diff_behaviour (Died e)
      (time_Now |-> t :: tr
         ++ [tlc_Walk source (Some filterDirs) |-> inl sourceContainer;
             os_Create recipe |-> inr e])
| diff_create_signature_failed t tc ts tr sourceContainer recipeWriter e :
    diff_target_behaviour target (Done (tc, ts)) tr ->
    diff_behaviour (Died e)
      (time_Now |-> t :: tr
         ++ diff_opens sourceContainer recipeWriter
         ++ [os_Create signaturePath |-> inr e])
| diff_write_failed t tc ts tr sourceContainer recipeWriter signatureWriter dctx e :
    diff_target_behaviour target (Done (tc, ts)) tr ->
    diff_behaviour (Died e)
      (time_Now |-> t :: tr
         ++ diff_opens sourceContainer recipeWriter
         ++ diff_writes (diff_context tc ts sourceContainer)
              recipeWriter signatureWriter (dctx, Some e))
| diff_unverified t tc ts tr rw sw written closedSignature closedRecipe :
    diff_verify (diffArgs g) = false ->
    diff_target_behaviour target (Done (tc, ts)) tr ->
    diff_written t tc ts rw sw written ->
    diff_behaviour (Done tt)
      (time_Now |-> t :: tr ++ written
         ++ diff_closes rw sw closedSignature closedRecipe)
| diff_tempdir_failed t tc ts tr rw sw written tmp e :
    diff_verify (diffArgs g) = true ->
    diff_target_behaviour target (Done (tc, ts)) tr ->
    diff_written t tc ts rw sw written ->
    diff_behaviour (Died e)
      (time_Now |-> t :: tr ++ written
         ++ [os_TempDir |-> tmp; ioutil_TempDir tmp "pwr" |-> inr e])
| diff_apply_died t tc ts tr rw sw written tmp tmpDir m applied :
    diff_verify (diffArgs g) = true ->
    diff_target_behaviour target (Done (tc, ts)) tr ->
    diff_written t tc ts rw sw written ->
    apply_behaviour recipe target tmpDir (Died m) applied ->
    diff_behaviour (Died m)
      (time_Now |-> t :: tr ++ written ++ diff_tempdir tmp tmpDir ++ applied)
| diff_verify_died t tc ts tr rw sw written tmp tmpDir m applied verified :
    diff_verify (diffArgs g) = true ->
    diff_target_behaviour target (Done (tc, ts)) tr ->
    diff_written t tc ts rw sw written ->
    apply_behaviour recipe target tmpDir (Done tt) applied ->
    verify_behaviour signaturePath tmpDir (Died m) verified ->
    diff_behaviour (Died m)
      (time_Now |-> t :: tr ++ written ++ diff_tempdir tmp tmpDir
         ++ applied ++ verified)
| diff_verified t tc ts tr rw sw written tmp tmpDir applied verified
                removed closedSignature closedRecipe :
    diff_verify (diffArgs g) = true ->
    diff_target_behaviour target (Done (tc, ts)) tr ->
    diff_written t tc ts rw sw written ->
    apply_behaviour recipe target tmpDir (Done tt) applied ->
    verify_behaviour signaturePath tmpDir (Done tt) verified ->
    diff_behaviour (Done tt)
      (time_Now |-> t :: tr ++ written ++ diff_tempdir tmp tmpDir
         ++ applied ++ verified
         ++ os_RemoveAll tmpDir |-> removed
         :: diff_closes rw sw closedSignature closedRecipe).
End DiffBehaviour.

(** ** Reading a trace *)

(** The calls of a trace that [f] selects, in order. *)
Definition pick {B : Type} (f : call Ev -> option B) (tr : list (call Ev)) : list B :=
  flat_map (fun c => match f c with Some b => [b] | None => [] end) tr.

(** The calls of [ApplyRecipe]: the context, the reader and the answer. *)
Definition applied_call (c : call Ev) : option (pwr.ApplyContext * File * option error) :=
  match c with
  | ApplyContext_ApplyRecipe actx patchReader |-> r => Some (actx, patchReader, r)
  | _ => None
  end.

Definition applied_calls : list (call Ev) -> list (pwr.ApplyContext * File * option error) :=
  pick applied_call.

(** The contexts handed to [WriteRecipe]. *)
Definition recipe_context (c : call Ev) : option pwr.DiffContext :=
  match c with
  | DiffContext_WriteRecipe dctx _ _ |-> _ => Some dctx
  | _ => None
  end.

Definition recipe_contexts : list (call Ev) -> list pwr.DiffContext := pick recipe_context.

(** The calls of [WriteRecipe] that returned without an error: the two
    writers. *)
Definition written_recipe (c : call Ev) : option (counter.Writer * counter.Writer) :=
  match c with
  | DiffContext_WriteRecipe _ patchWriter signatureWriter |-> (_, None) =>
      Some (patchWriter, signatureWriter)
  | _ => None
  end.

Definition written_recipes : list (call Ev) -> list (counter.Writer * counter.Writer) :=
  pick written_recipe.

(** The calls of [tlc.Walk]: the path and the filter. *)
Definition walk_call (c : call Ev) : option (string * option tlc.FilterFunc) :=
  match c with
  | tlc_Walk BasePath filter |-> _ => Some (BasePath, filter)
  | _ => None
  end.

Definition walk_calls : list (call Ev) -> list (string * option tlc.FilterFunc) :=
  pick walk_call.

(** What is written to a wire, and to which. *)
Inductive wire_write : Type :=
| WMagic (w : wire.WriteContext) (magic : pwr.Magic)
| WMessage (w : wire.WriteContext) (msg : pwr.Message).

Definition wire_write_of (c : call Ev) : option wire_write :=
  match c with
  | WriteContext_WriteMagic w magic |-> _ => Some (WMagic w magic)
  | WriteContext_WriteMessage w msg |-> _ => Some (WMessage w msg)
  | _ => None
  end.

Definition wire_writes : list (call Ev) -> list wire_write := pick wire_write_of.

(** ** The in-line verification of [diff] *)

Section InlineVerification.
Variable g : Globals.
Variables target source recipe : string.

(** The trace of a run up to the point where the recipe and its
    signature are written, into the files [recipeWriter] (created at
    [recipe]) and [signatureWriter] (created at [recipe ++ ".sig"]). *)
Definition recipe_written (recipeWriter signatureWriter : File)
           (before : list (call Ev)) : Prop :=
  exists t tc ts tr written,
    diff_target_behaviour target (Done (tc, ts)) tr /\
    diff_written g source recipe t tc ts recipeWriter signatureWriter written /\
    before = time_Now |-> t :: tr ++ written.

Inductive inline_verification : outcome unit -> list (call Ev) -> Prop :=
| verification_not_reached m tr :
    (* the process died before the recipe was written: nothing is applied *)
    written_recipes tr = [] ->
    applied_calls tr = [] ->
    inline_verification (Died m) tr
| verification_without_directory rw sw before tmp e :
    recipe_written rw sw before ->
    inline_verification (Died e)
      (before ++ [os_TempDir |-> tmp; ioutil_TempDir tmp "pwr" |-> inr e])
| verification_apply_died rw sw before tmp tmpDir m applied :
    recipe_written rw sw before ->
    apply_behaviour recipe target tmpDir (Died m) applied ->
    inline_verification (Died m) (before ++ diff_tempdir tmp tmpDir ++ applied)
| verification_failed rw sw before tmp tmpDir m applied verified :
    recipe_written rw sw before ->
    apply_behaviour recipe target tmpDir (Done tt) applied ->
    verify_behaviour (recipe ++ ".sig")%string tmpDir (Died m) verified ->
    inline_verification (Died m)
      (before ++ diff_tempdir tmp tmpDir ++ applied ++ verified)
| verification_passed rw sw before tmp tmpDir applied verified
                      removed closedSignature closedRecipe :
    recipe_written rw sw before ->
    apply_behaviour recipe target tmpDir (Done tt) applied ->
    verify_behaviour (recipe ++ ".sig")%string tmpDir (Done tt) verified ->
    inline_verification (Done tt)
      (before ++ diff_tempdir tmp tmpDir ++ applied ++ verified
         ++ os_RemoveAll tmpDir |-> removed
         :: diff_closes rw sw closedSignature closedRecipe).
End InlineVerification.

(** ** The flags of [apply] *)

(** [g] with the three flags of [applyArgs] that the [apply] command
    declares besides its paths set to the given values. *)
Definition with_apply_flags (g : Globals) (verify reverse : string) (inplace : bool)
  : Globals :=
  {| diffArgs := diffArgs g;
     applyArgs := {| apply_patch := apply_patch (applyArgs g);
                     apply_old := apply_old (applyArgs g);
                     apply_dir := apply_dir (applyArgs g);
                     apply_verify := verify;
                     apply_reverse := reverse;
                     apply_inplace := inplace |} |}.

(** ** A concrete environment

    Used to run the programs on examples.  The world is a counter, which
    gives the clock and the file descriptors. *)

Record Env : Type :=
  { env_dirs : list string;                       (* the paths that are directories *)
    env_walk : string -> option tlc.FilterFunc -> tlc.Container;
    env_recorded : tlc.Container * list sync.BlockHash;   (* what signature files hold *)
    env_computed : list sync.BlockHash }.         (* what hashing a directory gives *)

Definition scripted (env : Env) : handler Ev Z :=
  fun X e =>
    match e in Ev X return Z -> X * Z with
    | time_Now => fun w => (w, w + 1)%Z
    | time_Since start => fun w => ((w - start)%Z, (w + 1)%Z)
    | comm_Logf _ _ => fun w => (tt, w)
    | comm_Debugf _ _ => fun w => (tt, w)
    | comm_StartProgress => fun w => (tt, w)
    | comm_EndProgress => fun w => (tt, w)
    | os_Lstat name =>
        fun w => (inl {| Name := name; IsDir := existsb (String.eqb name) (env_dirs env) |}, w)
    | os_Open name => fun w => (inl {| fd := w; file_name := name |}, (w + 1)%Z)
    | os_Create name => fun w => (inl {| fd := w; file_name := name |}, (w + 1)%Z)
    | File_Close _ => fun w => (None, w)
    | os_TempDir => fun w => ("/tmp", w)
    | ioutil_TempDir dir pre => fun w => (inl (dir ++ "/" ++ pre ++ "1")%string, w)
    | os_RemoveAll _ => fun w => (None, w)
    | tlc_Walk BasePath filter => fun w => (inl (env_walk env BasePath filter), w)
    | pwr_ComputeSignature _ _ _ => fun w => (inl (env_computed env), w)
    | pwr_HashBlocks _ _ _ => fun w => ((env_computed env, None), w)
    | pwr_ReadSignature _ => fun w => (inl (env_recorded env), w)
    | pwr_CompressionDefault =>
        fun w => ({| pwr.Algorithm := pwr.CompressionAlgorithm_BROTLI; pwr.Quality := 1 |}, w)
    | pwr_CompressWire ctx compression => fun w => (inl (wire.Wrapped w ctx compression), w)
    | DiffContext_WriteRecipe dctx _ _ => fun w => ((dctx, None), w)
    | ApplyContext_ApplyRecipe _ _ => fun w => (None, w)
    | WriteContext_WriteMagic _ _ => fun w => (None, w)
    | WriteContext_WriteMessage _ _ => fun w => (None, w)
    | WriteContext_Close _ => fun w => (None, w)
    | Writer_Count _ => fun w => (0%Z, w)
    end.

Definition block (weak : Z) (strong : list Byte.byte) : sync.BlockHash :=
  {| sync.WeakHash := weak; sync.StrongHash := strong |}.

Definition a_container : tlc.Container :=
  {| tlc.Size := 3;
     tlc.Dirs := [{| tlc.dir_Path := "."; tlc.dir_Mode := 493 |}];
     tlc.Files := [{| tlc.file_Path := "a.txt"; tlc.file_Mode := 420;
                      tlc.file_Size := 3; tlc.file_Offset := 0 |}];
     tlc.Symlinks := [] |}.

Definition an_env : Env :=
  {| env_dirs := ["old"; "new"; "/tmp/pwr1"];
     env_walk := fun _ _ => a_container;
     env_recorded := (a_container, [block 7 [Byte.x01]]);
     env_computed := [block 7 [Byte.x01]] |}.

(** [an_env] with other recorded and computed hashes. *)
Definition with_hashes (recorded computed : list sync.BlockHash) : Env :=
  {| env_dirs := env_dirs an_env;
     env_walk := env_walk an_env;
     env_recorded := (a_container, recorded);
     env_computed := computed |}.

Definition some_flags (verify : bool) : Globals :=
  {| diffArgs := {| diff_old := "old"; diff_new := "new"; diff_patch := "patch.pwr";
                    diff_verify := verify; diff_quality := 1 |};
     applyArgs := {| apply_patch := "patch.pwr"; apply_old := "old"; apply_dir := "out";
                     apply_verify := ""; apply_reverse := ""; apply_inplace := false |} |}.

(** ** Behaviours of [sign] *)

(** The message [sign] writes for a block hash. *)
Definition block_message (hash : sync.BlockHash) : pwr.Message :=
  pwr.BlockHash (sync.WeakHash hash) (sync.StrongHash hash).

(** What a complete signature consists of, in order: the magic and the
    header on the raw wire, the container and one message per block hash on
    the compressed wire. *)
Definition signature_writes (rawSigWire sigWire : wire.WriteContext)
           (compression : pwr.CompressionSettings) (container : tlc.Container)
           (hashes : list sync.BlockHash) : list wire_write :=
  [WMagic rawSigWire pwr.SignatureMagic;
   WMessage rawSigWire (pwr.SignatureHeader compression);
   WMessage sigWire (pwr.Container container)]
    ++ map (fun hash => WMessage sigWire (block_message hash)) hashes.

Section SignBehaviour.
Variables output signature : string.

(** The writes of the block hashes: one per hash, in order, up to the
    first that fails. *)
Inductive streamed (sigWire : wire.WriteContext)
  : list sync.BlockHash -> option error -> list (call Ev) -> Prop :=
| streamed_all : streamed sigWire [] None []
| streamed_stop hash rest e :
    streamed sigWire (hash :: rest) (Some e)
      [WriteContext_WriteMessage sigWire (block_message hash) |-> Some e]
| streamed_next hash rest r tr :
    streamed sigWire rest r tr ->
    streamed sigWire (hash :: rest) r
      (WriteContext_WriteMessage sigWire (block_message hash) |-> None :: tr).

(** Up to the header: the walk (with no filter), the file, the magic and
    the header on the wire over the file itself. *)
Definition sign_header (t : Z) (container : tlc.Container) (signatureWriter : File)
           (compression : pwr.CompressionSettings) (magicErr headerErr : option error)
  : list (call Ev) :=
  [time_Now |-> t;
   tlc_Walk output None |-> inl container;
   os_Create signature |-> inl signatureWriter;
   pwr_CompressionDefault |-> compression;
   WriteContext_WriteMagic (wire.NewWriteContext signatureWriter) pwr.SignatureMagic
     |-> magicErr;
   WriteContext_WriteMessage (wire.NewWriteContext signatureWriter)
     (pwr.SignatureHeader compression) |-> headerErr].

(** The compressed wire, the container on it, and the hashing. *)
Definition sign_container (container : tlc.Container) (signatureWriter : File)
           (compression : pwr.CompressionSettings) (sigWire : wire.WriteContext)
           (containerErr : option error)
           (hashed : list sync.BlockHash * option error) : list (call Ev) :=
  [pwr_CompressWire (wire.NewWriteContext signatureWriter) compression |-> inl sigWire;
   WriteContext_WriteMessage sigWire (pwr.Container container) |-> containerErr;
   comm_StartProgress |-> tt;
   pwr_HashBlocks container output comm.NewStateConsumer |-> hashed].

Inductive sign_behaviour : outcome unit -> list (call Ev) -> Prop :=
| sign_walk_failed t e :
    sign_behaviour (Died e) [time_Now |-> t; tlc_Walk output None |-> inr e]
| sign_create_failed t container e :
    sign_behaviour (Died e)
      [time_Now |-> t; tlc_Walk output None |-> inl container;
       os_Create signature |-> inr e]
| sign_compress_failed t container signatureWriter compression magicErr headerErr e :
    sign_behaviour (Died e)
      (sign_header t container signatureWriter compression magicErr headerErr
         ++ [pwr_CompressWire (wire.NewWriteContext signatureWriter) compression |-> inr e])
| sign_write_failed t container signatureWriter compression magicErr headerErr
                    sigWire containerErr hashes failure e tr :
    streamed sigWire hashes (Some e) tr ->
    sign_behaviour (Died e)
      (sign_header t container signatureWriter compression magicErr headerErr
         ++ sign_container container signatureWriter compression sigWire containerErr
              (hashes, failure)
         ++ tr ++ [comm_EndProgress |-> tt])
| sign_hashing_failed t container signatureWriter compression magicErr headerErr
                      sigWire containerErr hashes e tr :
    streamed sigWire hashes None tr ->
    sign_behaviour (Died e)
      (sign_header t container signatureWriter compression magicErr headerErr
         ++ sign_container container signatureWriter compression sigWire containerErr
              (hashes, Some e)
         ++ tr ++ [comm_EndProgress |-> tt])
| sign_close_failed t container signatureWriter compression magicErr headerErr
                    sigWire containerErr hashes e tr :
    streamed sigWire hashes None tr ->
    sign_behaviour (Died e)
      (sign_header t container signatureWriter compression magicErr headerErr
         ++ sign_container container signatureWriter compression sigWire containerErr
              (hashes, None)
         ++ tr ++ [comm_EndProgress |-> tt; WriteContext_Close sigWire |-> Some e])
| sign_signed t container signatureWriter compression magicErr headerErr
              sigWire containerErr hashes tr elapsedTime :
    streamed sigWire hashes None tr ->
    sign_behaviour (Done tt)
      (sign_header t container signatureWriter compression magicErr headerErr
         ++ sign_container container signatureWriter compression sigWire containerErr
              (hashes, None)
         ++ tr
         ++ [comm_EndProgress |-> tt;
             WriteContext_Close sigWire |-> None;
             time_Since t |-> elapsedTime;
             comm_Logf "Hashed %s in %s (%s/s)"
               [AHumanBytes (tlc.Size container); ADuration elapsedTime;
                APerSecond (tlc.Size container) elapsedTime] |-> tt]).
End SignBehaviour.

(** [l] is the beginning of [l']. *)
Definition begins {A : Type} (l l' : list A) : Prop := exists rest, l' = l ++ rest.

(** An environment in which every copy fails its integrity check. *)
Definition always_corrupt : handler (cp.Ev string unit unit) unit :=
  fun X e =>
    match e in cp.Ev _ _ _ X return unit -> X * unit with
    | cp.call_Try _ _ _ _ _ _ => fun w => (Some "integrity", w)
    | cp.retry_pause _ _ _ _ _ => fun w => (tt, w)
    end.

(** * Further definitions *)

(** ** More on the traces of [diff] and [sign] *)

(** The calls that belong to the in-line verification of [diff]: the
    temporary directory, the application of the recipe, the removal. *)
Definition is_check_call (c : call Ev) : bool :=
  match c with
  | os_TempDir |-> _ => true
  | ioutil_TempDir _ _ |-> _ => true
  | ApplyContext_ApplyRecipe _ _ |-> _ => true
  | os_RemoveAll _ |-> _ => true
  | _ => false
  end.

(** The answer [x] to the call [e], except that writing the magic, the
    signature header and the container fails with [err]. *)
Definition preamble_fails (err : error) (X : Type) (e : Ev X) : X -> X :=
  match e in Ev X return X -> X with
  | WriteContext_WriteMagic _ _ => fun _ => Some err
  | WriteContext_WriteMessage _ msg =>
      fun x => match msg with
               | pwr.BlockHash _ _ => x
               | _ => Some err
               end
  | _ => fun x => x
  end.

(** The environment [h] with these three writes failing. *)
Definition failing_preamble (err : error) (W : Type) (h : handler Ev W) : handler Ev W :=
  fun X e w => let '(x, w') := h X e w in (preamble_fails err e x, w').

(** ** More on the traces of [cp.Do] *)

Section DoTraces.
Variable error : Type.
Variable Context : Type.
Variable CopyParams : Type.
Variable dl_IsIntegrityError : error -> bool.

(** The answers of the calls of [Try] in a trace, in order. *)
Definition try_answers (tr : list (call (cp.Ev error Context CopyParams)))
  : list (option error) :=
  flat_map (fun c => match call_event c in cp.Ev _ _ _ X
                           return X -> list (option error) with
                     | cp.call_Try _ _ _ _ _ _ => fun r => [r]
                     | _ => fun _ => []
                     end (call_answer c)) tr.

(** The pauses ([retryCtx.Retry]) in a trace: the message of each. *)
Definition pauses (tr : list (call (cp.Ev error Context CopyParams))) : list string :=
  flat_map (fun c => match call_event c with
                     | cp.retry_pause _ _ _ _ message => [message]
                     | _ => []
                     end) tr.

(** [Try] returned an integrity error. *)
Definition integrity_failure (r : option error) : bool :=
  match r with
  | Some e => dl_IsIntegrityError e
  | None => false
  end.
End DoTraces.

(** ** Package [cp]: [Try] *)

Module cp_Try.
(** [eos.File]: an [*httpfile.HTTPFile], or a file of another kind. *)
Inductive eos_File : Type :=
| HTTPFile (id : Z)
| OtherFile (id : Z).

Inductive Whence : Type := io_SeekStart | io_SeekEnd.

Inductive OpenFlag : Type := os_O_CREATE | os_O_WRONLY.

(** [os.FileInfo], as far as [Try] looks at it: [Size()]. *)
Record FileStat : Type := { stat_Size : Z }.

(** A [float64] progress: the constant [0], or [float64(num) / float64(den)]. *)
Inductive Progress : Type :=
| Zero
| Ratio (num den : Z).

(** What [Try] formats into its messages. *)
Inductive arg : Type :=
| IBytes (n : Z)                       (* humanize.IBytes(uint64(n)) *)
| PerSecond (n : Z) (duration : Z).    (* humanize.IBytes(uint64(float64(n) / duration.Seconds())) *)

(** [counter.NewWriterCallback(callback, w)]; [callback] is given by the
    progress it reports for a count. *)
Record WriterCallback : Type :=
  counter_NewWriterCallback { cw_callback : Z -> Progress; cw_writer : File }.

(** The newline that ends the formats of [comm.Statf]. *)
Definition nl : string := String (Ascii.ascii_of_nat 10) "".

Section Try.
(** The errors come from other packages; [Try] wraps some of them with
    [errors.WithStack]. *)
Variable error : Type.
Variable errors_WithStack : error -> error.
(** [filepath.Dir] *)
Variable filepath_Dir : string -> string.
(** [http.Header] *)
Variable Header : Type.
Variable Context : Type.
(** [*CopyParams]: its [Consumer] and its callbacks [OnStart], [OnStop]. *)
Variable CopyParams : Type.
(** The callbacks are func fields of [params]: [OnStart_set params] says
    that [params.OnStart] is not nil, and [OnStop_set params] that
    [params.OnStop] is not.  [Try] calls them without a check. *)
Variable OnStart_set : CopyParams -> bool.
Variable OnStop_set : CopyParams -> bool.

Inductive Ev : Type -> Type :=
| eos_Open (name : string) (consumer : CopyParams) : Ev (eos_File + error)
| src_Close (src : eos_File) : Ev (option error)
| src_Stat (src : eos_File) : Ev (FileStat + error)
| src_Seek (src : eos_File) (offset : Z) (whence : Whence) : Ev (Z * option error)
| HTTPFile_GetHeader (hf : eos_File) : Ev (option Header)
| os_MkdirAll (path : string) (perm : Z) : Ev (option error)
| os_OpenFile (name : string) (flag : list OpenFlag) (perm : Z) : Ev (File + error)
| dest_Close (dest : File) : Ev (option error)
| dest_Seek (dest : File) (offset : Z) (whence : Whence) : Ev (Z * option error)
| os_Truncate (name : string) (size : Z) : Ev (option error)
| io_Copy (dst : WriterCallback) (src : eos_File) : Ev (Z * option error)
| time_Now : Ev Z
| time_Since (start : Z) : Ev Z
| consumer_Infof (params : CopyParams) (format : string) (args : list arg) : Ev unit
| consumer_Warnf (params : CopyParams) (format : string) (args : list arg) : Ev unit
| params_OnStart (params : CopyParams) (initialProgress : Progress) (totalBytes : Z) : Ev unit
| params_OnStop (params : CopyParams) : Ev unit
| dl_CheckIntegrity (consumer : comm.Consumer) (header : Header) (totalBytes : Z)
                    (file : string) : Ev (option error)
| comm_Log (msg : string) : Ev unit
| comm_Debugf (format : string) : Ev unit
| comm_Statf (format : string) (args : list arg) : Ev unit.

(** What Go panics with when a nil func is called. *)
Definition nil_func_call : text :=
  Lit "runtime error: invalid memory address or nil pointer dereference".

(** [params.OnStart(initialProgress, totalBytes)] and [params.OnStop()]:
    the call of the callback, or the panic when the field is nil. *)
Definition call_OnStart (params : CopyParams) (initialProgress : Progress) (totalBytes : Z)
  : prog Ev unit :=
  if OnStart_set params
  then trigger (params_OnStart params initialProgress totalBytes)
  else Panic nil_func_call.

Definition call_OnStop (params : CopyParams) : prog Ev unit :=
  if OnStop_set params then trigger (params_OnStop params) else Panic nil_func_call.

(** The callback handed to [counter.NewWriterCallback]: the progress it
    reports to the consumer after [count] bytes. *)
Definition progress (totalBytes startOffset count : Z) : Progress :=
  if (totalBytes >? 0)%Z then Ratio (startOffset + count) totalBytes else Zero.

(** The closure [func() error { ... }()] of [Try] (lines 123 to 195).  It
    returns its error together with the variables of [Try] it assigns:
    [startOffset], [copiedBytes], [inferredTotalSize], all zero at first. *)
Definition Try_copy (params : CopyParams) (destPath : string) (src : eos_File) (dest : File)
           (totalBytes : Z) (resume : bool) : prog Ev (option error * (Z * Z * Z)) :=
  let consumer := params in
  let resume := if (totalBytes =? -1)%Z then false else resume in
  (* [inl startOffset]: go on to the copy; [inr]: the closure returns *)
  positioned <-
    (if resume then
       '(startOffset, err) <- trigger (dest_Seek dest 0 io_SeekEnd);;
       match err with
       | Some e => Ret (inr (Some e, startOffset))
       | None =>
           branch <-
             (if (startOffset =? 0)%Z then
                trigger (consumer_Infof consumer "Downloading %s" [IBytes totalBytes]);;
                Ret (inl startOffset)
              else if (startOffset >? totalBytes)%Z then
                trigger (consumer_Warnf consumer "Existing data too big (%s > %s), starting over"
                           [IBytes startOffset; IBytes totalBytes]);;
                '(startOffset, err) <- trigger (dest_Seek dest 0 io_SeekStart);;
                match err with
                | Some e => Ret (inr (Some e, startOffset))
                | None => Ret (inl startOffset)
                end
              else if (startOffset =? totalBytes)%Z then
                trigger (consumer_Infof consumer "All %s already there" [IBytes totalBytes]);;
                Ret (inr (None, startOffset))
              else Ret (inl startOffset));;
           match branch with
           | inr returned => Ret (inr returned)
           | inl startOffset =>
               trigger (consumer_Infof consumer "Resuming at %s / %s"
                          [IBytes startOffset; IBytes totalBytes]);;
               '(_, err) <- trigger (src_Seek src startOffset io_SeekStart);;
               match err with
               | Some e => Ret (inr (Some e, startOffset))
               | None => Ret (inl startOffset)
               end
           end
       end
     else
       (if (totalBytes >? 0)%Z
        then trigger (consumer_Infof consumer "Downloading %s" [IBytes totalBytes])
        else trigger (consumer_Infof consumer "Downloading (unknown size)" []));;
       Ret (inl 0%Z));;
  match positioned with
  | inr (err, startOffset) => Ret (err, (startOffset, 0%Z, 0%Z))
  | inl startOffset =>
      (if (totalBytes >? 0)%Z
       then call_OnStart params (Ratio startOffset totalBytes) totalBytes
       else call_OnStart params Zero 0);;
      let cw := counter_NewWriterCallback (progress totalBytes startOffset) dest in
      '(copiedBytes, err) <- trigger (io_Copy cw src);;
      match err with
      | Some e => Ret (Some e, (startOffset, copiedBytes, 0%Z))
      | None =>
          call_OnStop params;;
          if (totalBytes >? 0)%Z then
            err <- trigger (os_Truncate destPath totalBytes);;
            match err with
            | Some e => Ret (Some (errors_WithStack e), (startOffset, copiedBytes, 0%Z))
            | None => Ret (None, (startOffset, copiedBytes, totalBytes))
            end
          else Ret (None, (startOffset, copiedBytes, copiedBytes))
      end
  end.

(** The integrity check of [Try] (lines 201 to 215): the error [Try]
    returns there, if any. *)
Definition Try_check (destPath : string) (src : eos_File) (totalBytes : Z)
  : prog Ev (option error) :=
  match src with
  | HTTPFile _ =>
      header <- trigger (HTTPFile_GetHeader src);;
      match header with
      | Some header =>
          err <- trigger (dl_CheckIntegrity comm.NewStateConsumer header totalBytes destPath);;
          match err with
          | Some e =>
              trigger (comm_Log "Integrity checks failed, truncating");;
              _ <- trigger (os_Truncate destPath 0);;
              Ret (Some (errors_WithStack e))
          | None => Ret None
          end
      | None =>
          trigger (comm_Debugf "Not performing integrity checks (no header)");;
          Ret None
      end
  | OtherFile _ =>
      trigger (comm_Debugf "Not performing integrity checks (not an HTTP resource)");;
      Ret None
  end.

(** [Try].  [params] points to a [CopyParams] (line 85 reads its
    consumer).  The two deferred calls close the source and the
    destination when [Try] returns, and also when it panics. *)
Definition Try (ctx : Context) (params : CopyParams) (srcPath destPath : string)
           (resume : bool) : prog Ev (option error) :=
  let consumer := params in
  opened <- trigger (eos_Open srcPath consumer);;
  match opened with
  | inr err => Ret (Some err)
  | inl src =>
  defer (_ <- trigger (src_Close src);; Ret tt)
    (let dir := filepath_Dir destPath in
     err <- trigger (os_MkdirAll dir 493);;
     match err with
     | Some e => Ret (Some e)
     | None =>
     let flags := [os_O_CREATE; os_O_WRONLY] in
     created <- trigger (os_OpenFile destPath flags 420);;
     match created with
     | inr err => Ret (Some err)
     | inl dest =>
     defer (_ <- trigger (dest_Close dest);; Ret tt)
       (stated <- trigger (src_Stat src);;
        match stated with
        | inr err => Ret (Some err)
        | inl stats =>
        let totalBytes := stat_Size stats in
        let totalBytes := if (totalBytes =? 0)%Z then (-1)%Z else totalBytes in
        start <- trigger time_Now;;
        '(err, (startOffset, copiedBytes, inferredTotalSize)) <-
          Try_copy params destPath src dest totalBytes resume;;
        match err with
        | Some e => Ret (Some e)
        | None =>
        checked <- Try_check destPath src totalBytes;;
        match checked with
        | Some e => Ret (Some e)
        | None =>
        totalDuration <- trigger (time_Since start);;
        (if (startOffset >? 0)%Z
         then trigger (comm_Statf ("%s + %s copied @ %s/s" ++ nl)%string
                         [IBytes startOffset; IBytes copiedBytes;
                          PerSecond (inferredTotalSize - startOffset) totalDuration])
         else trigger (comm_Statf ("%s copied @ %s/s" ++ nl)%string
                         [IBytes copiedBytes;
                          PerSecond (inferredTotalSize - startOffset) totalDuration]));;
        Ret None
        end
        end
        end)
     end
     end)
  end.

(** *** Reading a trace of [Try] *)

(** What [Try] opens and must close. *)
Inductive handle : Type :=
| SrcHandle (src : eos_File)
| DestHandle (dest : File).

Definition opened_by (c : call Ev) : list handle :=
  match call_event c in Ev X return X -> list handle with
  | eos_Open _ _ => fun r => match r with inl src => [SrcHandle src] | inr _ => [] end
  | os_OpenFile _ _ _ => fun r => match r with inl dest => [DestHandle dest] | inr _ => [] end
  | _ => fun _ => []
  end (call_answer c).

Definition closed_by (c : call Ev) : list handle :=
  match call_event c with
  | src_Close src => [SrcHandle src]
  | dest_Close dest => [DestHandle dest]
  | _ => []
  end.

(** The handles a trace opens, and those it closes, in order. *)
Definition opened (tr : list (call Ev)) : list handle := flat_map opened_by tr.
Definition closed (tr : list (call Ev)) : list handle := flat_map closed_by tr.

(** The calls of [dl.CheckIntegrity]: the total and the file each was
    given, and its answer. *)
Definition integrity_checks (tr : list (call Ev)) : list (Z * string * option error) :=
  flat_map (fun c => match call_event c in Ev X return X -> list (Z * string * option error) with
                     | dl_CheckIntegrity _ _ totalBytes file => fun r => [(totalBytes, file, r)]
                     | _ => fun _ => []
                     end (call_answer c)) tr.

(** The calls of [os.Truncate]: the name and the size. *)
Definition truncations (tr : list (call Ev)) : list (string * Z) :=
  flat_map (fun c => match call_event c with
                     | os_Truncate name size => [(name, size)]
                     | _ => []
                     end) tr.

(** The errors [io.Copy] returned, one per call. *)
Definition copy_results (tr : list (call Ev)) : list (option error) :=
  flat_map (fun c => match call_event c in Ev X return X -> list (option error) with
                     | io_Copy _ _ => fun r => [snd r]
                     | _ => fun _ => []
                     end (call_answer c)) tr.

(** The calls of [params.OnStart]: the initial progress and the total
    each was given; and the number of calls of [params.OnStop]. *)
Definition starts (tr : list (call Ev)) : list (Progress * Z) :=
  flat_map (fun c => match call_event c with
                     | params_OnStart _ initialProgress totalBytes =>
                         [(initialProgress, totalBytes)]
                     | _ => []
                     end) tr.

Definition stops (tr : list (call Ev)) : nat :=
  length (filter (fun c => match call_event c with
                           | params_OnStop _ => true
                           | _ => false
                           end) tr).

(** The writers [io.Copy] was given. *)
Definition copy_writers (tr : list (call Ev)) : list WriterCallback :=
  flat_map (fun c => match call_event c with
                     | io_Copy cw _ => [cw]
                     | _ => []
                     end) tr.

(** The offsets the source was sought to. *)
Definition src_seeks (tr : list (call Ev)) : list (Z * Whence) :=
  flat_map (fun c => match call_event c with
                     | src_Seek _ offset whence => [(offset, whence)]
                     | _ => []
                     end) tr.

(** The seeks on the destination: the offset and the whence asked for,
    and the offset that was answered. *)
Definition dest_seeks (tr : list (call Ev)) : list (Z * Whence * Z) :=
  flat_map (fun c => match call_event c in Ev X return X -> list (Z * Whence * Z) with
                     | dest_Seek _ offset whence => fun r => [(offset, whence, fst r)]
                     | _ => fun _ => []
                     end (call_answer c)) tr.

(** The sizes that [Stat] reported. *)
Definition stat_sizes (tr : list (call Ev)) : list Z :=
  flat_map (fun c => match call_event c in Ev X return X -> list Z with
                     | src_Stat _ => fun r => match r with
                                              | inl stats => [stat_Size stats]
                                              | inr _ => []
                                              end
                     | _ => fun _ => []
                     end (call_answer c)) tr.

(** The formats of the consumer's [Infof] messages. *)
Definition infos (tr : list (call Ev)) : list string :=
  flat_map (fun c => match call_event c with
                     | consumer_Infof _ format _ => [format]
                     | _ => []
                     end) tr.
End Try.

(** A source of unknown size (its [Stat] says 0) and a destination that
    already holds [held] bytes; nothing fails.  Errors are strings here,
    and a world counts the calls. *)
Definition unsized_source (held : Z) : handler (Ev string unit unit) Z :=
  fun X e =>
    match e in Ev _ _ _ X return Z -> X * Z with
    | @eos_Open _ _ _ _ _ => fun w => (inl (HTTPFile w), w + 1)%Z
    | @src_Close _ _ _ _ => fun w => (None, w + 1)%Z
    | @src_Stat _ _ _ _ => fun w => (inl {| stat_Size := 0 |}, w + 1)%Z
    | @src_Seek _ _ _ _ offset _ => fun w => ((offset, None), w + 1)%Z
    | @HTTPFile_GetHeader _ _ _ _ => fun w => (Some tt, w + 1)%Z
    | @os_MkdirAll _ _ _ _ _ => fun w => (None, w + 1)%Z
    | @os_OpenFile _ _ _ name _ _ => fun w => (inl {| fd := w; file_name := name |}, w + 1)%Z
    | @dest_Close _ _ _ _ => fun w => (None, w + 1)%Z
    | @dest_Seek _ _ _ _ offset whence =>
        fun w => ((match whence with io_SeekEnd => held + offset | io_SeekStart => offset end,
                   None), w + 1)%Z
    | @os_Truncate _ _ _ _ _ => fun w => (None, w + 1)%Z
    | @io_Copy _ _ _ _ _ => fun w => ((7, None), w + 1)%Z
    | @time_Now _ _ _ => fun w => (w, w + 1)%Z
    | @time_Since _ _ _ start => fun w => (w - start, w + 1)%Z
    | @consumer_Infof _ _ _ _ _ _ => fun w => (tt, w + 1)%Z
    | @consumer_Warnf _ _ _ _ _ _ => fun w => (tt, w + 1)%Z
    | @params_OnStart _ _ _ _ _ _ => fun w => (tt, w + 1)%Z
    | @params_OnStop _ _ _ _ => fun w => (tt, w + 1)%Z
    | @dl_CheckIntegrity _ _ _ _ _ _ _ => fun w => (None, w + 1)%Z
    | @comm_Log _ _ _ _ => fun w => (tt, w + 1)%Z
    | @comm_Debugf _ _ _ _ => fun w => (tt, w + 1)%Z
    | @comm_Statf _ _ _ _ _ => fun w => (tt, w + 1)%Z
    end.
End cp_Try.

(** ** Package [fetch]: [FetchCollection] *)

Module fetch.
(** [*itchio.CollectionGame], known here by an identity only. *)
Definition CollectionGame : Type := Z.

(** [itchio.Collection], as far as [FetchCollection] looks at it. *)
Record Collection : Type :=
  { ID : Z; GamesCount : Z; CollectionGames : list CollectionGame }.

(** [collection.CollectionGames = games] *)
Definition set_CollectionGames (games : list CollectionGame) (collection : Collection)
  : Collection :=
  {| ID := ID collection; GamesCount := GamesCount collection; CollectionGames := games |}.

Record FetchCollectionParams : Type := { ProfileID : Z; CollectionID : Z }.

(** [butlerd.FetchCollectionResult], an empty struct. *)
Inductive FetchCollectionResult : Type := EmptyResult.

Record GetCollectionGamesResponse : Type :=
  { Page : Z; PerPage : Z; page_CollectionGames : list CollectionGame }.

(** The element types listed under [DontCull]. *)
Inductive Model : Type := itchio_CollectionGame.

Record SaveParams : Type :=
  { Record_ : Collection; Assocs : list string; DontCull : list Model }.

Section FetchCollection.
Variable error : Type.
Variable errors_New : string -> error.
Variable errors_WithStack : error -> error.
(** A connection of the pool, and an API client. *)
Variable Conn : Type.
Variable Client : Type.

(** The calls that leave [FetchCollection].  A pointer to a collection is
    a collection or [nil]; a call that fills the collection it is given
    ([PreloadCollectionGames]) answers with the collection as it left it.
    The [Must...] functions are not expected to change their record. *)
Inductive Ev : Type -> Type :=
| DBPool_Get : Ev Conn
| DBPool_Put (conn : Conn) : Ev unit
| rc_ProfileClient (profileID : Z) : Ev Client
| models_CollectionByID (conn : Conn) (id : Z) : Ev (option Collection)
| PreloadCollectionGames (collection : Collection) (conn : Conn) : Ev Collection
| FetchCollectionYield_Notify (collection : Collection) : Ev (option error)
| consumer_Debugf (format : string) : Ev unit
| consumer_Infof (format : string) (args : list Z) : Ev unit
| client_GetCollection (client : Client) (collectionID : Z) : Ev (option Collection + error)
| models_MustSaveOne (conn : Conn) (record : Collection) : Ev unit
| client_GetCollectionGames (client : Client) (collectionID page : Z)
  : Ev (GetCollectionGamesResponse + error)
| models_MustSave (conn : Conn) (params : SaveParams) : Ev unit.

(** The closure [sendDBCollection]. *)
Definition sendDBCollection (conn : Conn) (params : FetchCollectionParams)
  : prog Ev (option error) :=
  collection <- trigger (models_CollectionByID conn (CollectionID params));;
  match collection with
  | None => Ret None
  | Some collection =>
      collection <- trigger (PreloadCollectionGames collection conn);;
      err <- trigger (FetchCollectionYield_Notify collection);;
      match err with
      | Some e => Ret (Some (errors_WithStack e))
      | None => Ret None
      end
  end.

(** The games still to fetch, as the loop counts them. *)
Definition missing (collection : Collection) (offset : Z) : nat :=
  Z.to_nat (GamesCount collection - offset).

(** The loop [for page := int64(1); ; page++ { ... }], from the state it
    is in at the head of an iteration.  It ends with [inl collection] when
    the loop is left by [break], and with [inr err] when the function
    returns [nil, err] from inside it.  [offset] is the number of games
    appended so far, the length of a slice, so that it and [page] stay far
    from the ends of [int64]. *)
Equations? FetchCollection_loop (client : Client) (conn : Conn)
         (params : FetchCollectionParams) (collection : Collection) (page offset : Z)
  : prog Ev (Collection + error) by wf (missing collection offset) lt :=
FetchCollection_loop client conn params collection page offset :=
  trigger (consumer_Infof "Fetching page %d" [page]);;
  gamesRes <- trigger (client_GetCollectionGames client (CollectionID params) page);;
  match gamesRes with
  | inr err => Ret (inr (errors_WithStack err))
  | inl gamesRes =>
      let numPageGames := Z.of_nat (length (page_CollectionGames gamesRes)) in
      match Z.eq_dec numPageGames 0 with
      | left _ => Ret (inl collection)
      | right Hgames =>
          let collection' :=
            set_CollectionGames (CollectionGames collection ++ page_CollectionGames gamesRes)
              collection in
          trigger (models_MustSave conn {| Record_ := collection';
                                           Assocs := ["CollectionGames"];
                                           DontCull := [itchio_CollectionGame] |});;
          let offset' := (offset + numPageGames)%Z in
          match Z_ge_dec offset' (GamesCount collection') with
          | left _ => Ret (inl collection')      (* already fetched all or more?! *)
          | right Hmore =>
              if (numPageGames <? PerPage gamesRes)%Z then
                Ret (inl collection')            (* that probably means there's no more pages *)
              else
                err <- sendDBCollection conn params;;
                match err with
                | Some e => Ret (inr (errors_WithStack e))
                | None => FetchCollection_loop client conn params collection' (page + 1) offset'
                end
          end
      end
  end.
Proof.
unfold missing. cbn in *. lia.
Qed.

(** What [FetchCollection] does once it has its connection [conn] and has
    deferred putting it back. *)
Definition FetchCollection_body (conn : Conn) (params : FetchCollectionParams)
  : prog Ev (FetchCollectionResult + error) :=
  if (CollectionID params =? 0)%Z then
    Ret (inr (errors_New "collectionId must be non-zero"))
  else
    client <- trigger (rc_ProfileClient (ProfileID params));;
    err <- sendDBCollection conn params;;
    match err with
    | Some e => Ret (inr (errors_WithStack e))
    | None =>
    trigger (consumer_Debugf "Querying API...");;
    collRes <- trigger (client_GetCollection client (CollectionID params));;
    match collRes with
    | inr err => Ret (inr (errors_WithStack err))
    | inl None =>
        (* [collRes.Collection] is nil *)
        Panic (Lit "runtime error: invalid memory address or nil pointer dereference")
    | inl (Some collection) =>
    let collection := set_CollectionGames [] collection in
    trigger (models_MustSaveOne conn collection);;
    (* after collection metadata update *)
    err <- sendDBCollection conn params;;
    match err with
    | Some e => Ret (inr (errors_WithStack e))
    | None =>
    looped <- FetchCollection_loop client conn params collection 1 0;;
    match looped with
    | inr err => Ret (inr err)
    | inl collection =>
    trigger (models_MustSave conn {| Record_ := collection;
                                     Assocs := ["CollectionGames"];
                                     DontCull := [] |});;
    (* after all pages are fetched *)
    err <- sendDBCollection conn params;;
    match err with
    | Some e => Ret (inr (errors_WithStack e))
    | None => Ret (inl EmptyResult)
    end
    end
    end
    end
    end.

Definition FetchCollection (params : FetchCollectionParams)
  : prog Ev (FetchCollectionResult + error) :=
  conn <- trigger DBPool_Get;;
  defer (_ <- trigger (DBPool_Put conn);; Ret tt) (FetchCollection_body conn params).

(** *** Reading a trace of [FetchCollection] *)

(** The pages asked of [GetCollectionGames], in order. *)
Definition pages_requested (tr : list (call Ev)) : list Z :=
  flat_map (fun c => match call_event c with
                     | client_GetCollectionGames _ _ page => [page]
                     | _ => []
                     end) tr.

(** The games of the pages that [GetCollectionGames] answered. *)
Definition page_answers (tr : list (call Ev)) : list (list CollectionGame) :=
  flat_map (fun c => match call_event c in Ev X return X -> list (list CollectionGame) with
                     | client_GetCollectionGames _ _ _ =>
                         fun r => match r with
                                  | inl gamesRes => [page_CollectionGames gamesRes]
                                  | inr _ => []
                                  end
                     | _ => fun _ => []
                     end (call_answer c)) tr.

(** What [models.MustSave] was given. *)
Definition saves (tr : list (call Ev)) : list SaveParams :=
  flat_map (fun c => match call_event c with
                     | models_MustSave _ params => [params]
                     | _ => []
                     end) tr.

(** The records given to [models.MustSaveOne]. *)
Definition saved_alone (tr : list (call Ev)) : list Collection :=
  flat_map (fun c => match call_event c with
                     | models_MustSaveOne _ record => [record]
                     | _ => []
                     end) tr.

(** The collections that [GetCollection] answered. *)
Definition collections_answered (tr : list (call Ev)) : list Collection :=
  flat_map (fun c => match call_event c in Ev X return X -> list Collection with
                     | client_GetCollection _ _ =>
                         fun r => match r with
                                  | inl (Some collection) => [collection]
                                  | _ => []
                                  end
                     | _ => fun _ => []
                     end (call_answer c)) tr.

(** The answers of [FetchCollectionYield.Notify]. *)
Definition notify_answers (tr : list (call Ev)) : list (option error) :=
  flat_map (fun c => match call_event c in Ev X return X -> list (option error) with
                     | FetchCollectionYield_Notify _ => fun r => [r]
                     | _ => fun _ => []
                     end (call_answer c)) tr.

(** The errors that the API client answered. *)
Definition client_errors (tr : list (call Ev)) : list error :=
  flat_map (fun c => match call_event c in Ev X return X -> list error with
                     | client_GetCollection _ _ =>
                         fun r => match r with inr err => [err] | inl _ => [] end
                     | client_GetCollectionGames _ _ _ =>
                         fun r => match r with inr err => [err] | inl _ => [] end
                     | _ => fun _ => []
                     end (call_answer c)) tr.

(** The calls on the pool of connections. *)
Inductive pool_call : Type :=
| Taken (conn : Conn)
| PutBack (conn : Conn).

Definition pool_calls (tr : list (call Ev)) : list pool_call :=
  flat_map (fun c => match call_event c in Ev X return X -> list pool_call with
                     | DBPool_Get => fun conn => [Taken conn]
                     | DBPool_Put conn => fun _ => [PutBack conn]
                     | _ => fun _ => []
                     end (call_answer c)) tr.

(** The pages [page], [page + 1], ... : [n] of them. *)
Fixpoint pages_from (page : Z) (n : nat) : list Z :=
  match n with
  | O => []
  | S n => page :: pages_from (page + 1) n
  end.

(** The games held after each of the [pages], from [games]: page after
    page is appended; an empty page adds nothing and is not listed. *)
Fixpoint accumulated (games : list CollectionGame) (pages : list (list CollectionGame))
  : list (list CollectionGame) :=
  match pages with
  | [] => []
  | [] :: pages => accumulated games pages
  | page :: pages => (games ++ page) :: accumulated (games ++ page) pages
  end.

(** What a run of the loop from [collection], [page] and [offset] shows. *)
Definition loop_behaviour (collection : Collection) (page offset : Z)
           (o : outcome (Collection + error)) (tr : list (call Ev)) : Prop :=
  pool_calls tr = []
  /\ collections_answered tr = []
  /\ saved_alone tr = []
  /\ pages_requested tr = pages_from page (length (pages_requested tr))
  /\ 1 <= length (pages_requested tr)
  /\ (Z.of_nat (length (pages_requested tr)) <= Z.max 1 (GamesCount collection - offset))%Z
  /\ saves tr
     = map (fun games => {| Record_ := set_CollectionGames games collection;
                            Assocs := ["CollectionGames"];
                            DontCull := [itchio_CollectionGame] |})
         (accumulated (CollectionGames collection) (page_answers tr))
  /\ match o with
     | Done (inl collection') =>
         collection'
         = set_CollectionGames (CollectionGames collection ++ concat (page_answers tr)) collection
         /\ client_errors tr = []
         /\ Forall (fun a => a = None) (notify_answers tr)
     | Done (inr err) =>
         (exists e, client_errors tr = [e] /\ err = errors_WithStack e
                    /\ Forall (fun a => a = None) (notify_answers tr))
         \/ (exists e before,
                client_errors tr = [] /\ err = errors_WithStack (errors_WithStack e)
                /\ notify_answers tr = before ++ [Some e]
                /\ Forall (fun a => a = None) before)
     | _ => False
     end.

(** The records the loop saves, for the collection [c] that the API
    answered: all the games fetched so far, after each page that has some. *)
Definition page_saves (c : Collection) (pages : list (list CollectionGame))
  : list SaveParams :=
  map (fun games => {| Record_ := set_CollectionGames games c;
                       Assocs := ["CollectionGames"];
                       DontCull := [itchio_CollectionGame] |})
    (accumulated [] pages).

(** The record saved after the loop. *)
Definition final_save (c : Collection) (pages : list (list CollectionGame)) : SaveParams :=
  {| Record_ := set_CollectionGames (concat pages) c;
     Assocs := ["CollectionGames"];
     DontCull := [] |}.

(** What a run of [FetchCollection_body] shows: its outcome [o] and its
    calls [inner]. *)
Definition body_behaviour (params : FetchCollectionParams)
           (o : outcome (FetchCollectionResult + error)) (inner : list (call Ev)) : Prop :=
  pool_calls inner = []
  /\ pages_requested inner = pages_from 1 (length (pages_requested inner))
  /\ length (collections_answered inner) <= 1
  /\ saved_alone inner = map (set_CollectionGames []) (collections_answered inner)
  /\ (collections_answered inner = [] -> pages_requested inner = [] /\ saves inner = [])
  /\ (forall c, In c (collections_answered inner) ->
        (Z.of_nat (length (pages_requested inner)) <= Z.max 1 (GamesCount c))%Z
        /\ (saves inner = page_saves c (page_answers inner)
            \/ saves inner = page_saves c (page_answers inner)
                             ++ [final_save c (page_answers inner)])
        /\ ((exists res, o = Done (inl res)) ->
            saves inner = page_saves c (page_answers inner)
                          ++ [final_save c (page_answers inner)]))
  /\ ((CollectionID params = 0)%Z ->
      inner = [] /\ o = Done (inr (errors_New "collectionId must be non-zero")))
  /\ match o with
     | Done (inl _) =>
         client_errors inner = [] /\ Forall (fun a => a = None) (notify_answers inner)
         /\ length (collections_answered inner) = 1
     | Done (inr err) =>
         (CollectionID params = 0%Z /\ err = errors_New "collectionId must be non-zero")
         \/ (exists e, client_errors inner = [e] /\ err = errors_WithStack e
                       /\ Forall (fun a => a = None) (notify_answers inner))
         \/ (exists e before,
                client_errors inner = [] /\ err = errors_WithStack (errors_WithStack e)
                /\ notify_answers inner = before ++ [Some e]
                /\ Forall (fun a => a = None) before)
     | Panicked _ =>
         exists before client,
           inner = before ++ [client_GetCollection client (CollectionID params) |-> inl None]
     | Died _ => False
     end.

(** What a run of [FetchCollection] shows: the connection is taken first
    and put back last, around the calls of the body. *)
Definition FetchCollection_behaviour (params : FetchCollectionParams)
           (o : outcome (FetchCollectionResult + error)) (tr : list (call Ev)) : Prop :=
  exists conn put inner,
    tr = (DBPool_Get |-> conn) :: inner ++ [DBPool_Put conn |-> put]
    /\ body_behaviour params o inner.
End FetchCollection.

(** An API that holds a collection of three games and answers two games
    a page; the database holds the collection already and no call fails.
    Errors are strings, connections and clients are numbers, and the world
    counts the calls. *)
Definition three_games (id : Z) : Collection :=
  {| ID := id; GamesCount := 3; CollectionGames := [7%Z] |}.

Definition two_a_page : handler (Ev string Z Z) Z :=
  fun X e =>
    match e in Ev _ _ _ X return Z -> X * Z with
    | @DBPool_Get _ _ _ => fun w => (w, w + 1)%Z
    | @DBPool_Put _ _ _ _ => fun w => (tt, w + 1)%Z
    | @rc_ProfileClient _ _ _ profileID => fun w => (profileID, w + 1)%Z
    | @models_CollectionByID _ _ _ _ id => fun w => (Some (three_games id), w + 1)%Z
    | @PreloadCollectionGames _ _ _ collection _ => fun w => (collection, w + 1)%Z
    | @FetchCollectionYield_Notify _ _ _ _ => fun w => (None, w + 1)%Z
    | @consumer_Debugf _ _ _ _ => fun w => (tt, w + 1)%Z
    | @consumer_Infof _ _ _ _ _ => fun w => (tt, w + 1)%Z
    | @client_GetCollection _ _ _ _ id => fun w => (inl (Some (three_games id)), w + 1)%Z
    | @models_MustSaveOne _ _ _ _ _ => fun w => (tt, w + 1)%Z
    | @client_GetCollectionGames _ _ _ _ _ page =>
        fun w => (inl {| Page := page; PerPage := 2;
                         page_CollectionGames :=
                           if (page =? 1)%Z then [11; 12]%Z
                           else if (page =? 2)%Z then [13]%Z else [] |}, w + 1)%Z
    | @models_MustSave _ _ _ _ _ => fun w => (tt, w + 1)%Z
    end.
End fetch.

(** ** The command line ([main.go]): what [main] does before it
    dispatches *)

Module cmdline.
(** The flags of [appArgs], as they are once the command line is parsed. *)
Record appArgs : Type :=
  { json : bool; quiet : bool; verbose : bool; timestamps : bool; noProgress : bool;
    panic : bool; identity : string; address : string }.

(** [*appArgs.noProgress = b] and [*appArgs.verbose = b] *)
Definition set_noProgress (b : bool) (a : appArgs) : appArgs :=
  {| json := json a; quiet := quiet a; verbose := verbose a; timestamps := timestamps a;
     noProgress := b; panic := panic a; identity := identity a; address := address a |}.

Definition set_verbose (b : bool) (a : appArgs) : appArgs :=
  {| json := json a; quiet := quiet a; verbose := b; timestamps := timestamps a;
     noProgress := noProgress a; panic := panic a; identity := identity a;
     address := address a |}.

Inductive LogFlag : Type := log_Ldate | log_Ltime | log_Lmicroseconds.

Definition version : string := "head".

(** [app.Parse(os.Args[1:])] answers with the command and the error, and
    with the values it gave the flags: [inl].  For the help and the version
    flags, which lines 207 to 209 set up, kingpin prints the usage or the
    version and ends the process inside [Parse], which then does not return:
    [inr shown], with what was printed. *)
Inductive Ev : Type -> Type :=
| HelpFlag_Short (c : ascii) : Ev unit
| app_Version (version : string) : Ev unit
| VersionFlag_Short (c : ascii) : Ev unit
| app_Parse : Ev (appArgs * string * option error + string)
| log_SetFlags (flags : list LogFlag) : Ev unit
| isTerminal : Ev bool
| log_Println (msg : string) : Ev unit
| comm_Configure (noProgress quiet verbose json panic : bool) : Ev unit.

(** [main], up to the [switch] on the parsed command (lines 207 to 227):
    the flags as [main] leaves them, the command and the error of the
    parse.  Where kingpin has ended the process inside [Parse], the
    program ends there ([Die], with what kingpin printed). *)
Definition main_setup : prog Ev (appArgs * string * option error) :=
  trigger (HelpFlag_Short "h");;
  trigger (app_Version version);;
  trigger (VersionFlag_Short "V");;
  parsed <- trigger app_Parse;;
  match parsed with
  | inr shown => Die (Lit shown)
  | inl (args, cmd, err) =>
      (if timestamps args
       then trigger (log_SetFlags [log_Ldate; log_Ltime; log_Lmicroseconds])
       else trigger (log_SetFlags []));;
      let args := if quiet args then set_verbose false (set_noProgress true args) else args in
      terminal <- trigger isTerminal;;
      args <- (if negb terminal then
                 trigger (log_Println "Not a terminal, disabling progress indicator");;
                 Ret (set_noProgress true args)
               else Ret args);;
      trigger (comm_Configure (noProgress args) (quiet args) (verbose args) (json args)
                 (panic args));;
      Ret (args, cmd, err)
  end.

(** *** Reading a trace of [main_setup] *)

(** The answers of [app.Parse]. *)
Definition parsed (tr : list (call Ev))
  : list (appArgs * string * option error + string) :=
  flat_map (fun c => match call_event c in Ev X
                           return X -> list (appArgs * string * option error + string) with
                     | app_Parse => fun r => [r]
                     | _ => fun _ => []
                     end (call_answer c)) tr.

Definition terminals (tr : list (call Ev)) : list bool :=
  flat_map (fun c => match call_event c in Ev X return X -> list bool with
                     | isTerminal => fun r => [r]
                     | _ => fun _ => []
                     end (call_answer c)) tr.

(** What [comm.Configure] was given: noProgress, quiet, verbose, json,
    panic. *)
Definition configured (tr : list (call Ev)) : list (bool * bool * bool * bool * bool) :=
  flat_map (fun c => match call_event c with
                     | comm_Configure noProgress quiet verbose json panic =>
                         [(noProgress, quiet, verbose, json, panic)]
                     | _ => []
                     end) tr.

Definition log_flags (tr : list (call Ev)) : list (list LogFlag) :=
  flat_map (fun c => match call_event c with
                     | log_SetFlags flags => [flags]
                     | _ => []
                     end) tr.

Definition printed (tr : list (call Ev)) : list string :=
  flat_map (fun c => match call_event c with
                     | log_Println msg => [msg]
                     | _ => []
                     end) tr.
End cmdline.

(** ** The files of [apply], [sign] and [verify] *)

(** The files a trace opened or created, and those it closed. *)
Definition opened_file (c : call Ev) : option File :=
  match c with
  | os_Open _ |-> inl f => Some f
  | os_Create _ |-> inl f => Some f
  | _ => None
  end.

Definition closed_file (c : call Ev) : option File :=
  match c with
  | File_Close f |-> _ => Some f
  | _ => None
  end.

Definition opened_files : list (call Ev) -> list File := pick opened_file.
Definition closed_files : list (call Ev) -> list File := pick closed_file.

(** * Theorems *)

(** ** The default filter *)

Lemma prefix_iff_append (pre s : string) :
  String.prefix pre s = true <-> exists rest, s = (pre ++ rest)%string.
Proof.
  revert s. induction pre as [|c pre IH]; intros s.
  - split; [intros _; exists s; reflexivity | intros _; destruct s; reflexivity].
  - destruct s as [|d s]; simpl.
    + split; [discriminate | intros [rest H]; discriminate].
    + destruct (Ascii.ascii_dec c d) as [->|Hne].
      * rewrite IH. split; intros [rest H]; exists rest.
        -- now rewrite H.
        -- now injection H.
      * split; [discriminate | intros [rest H]; injection H; intros; congruence].
Qed.

Lemma filterDirs_loop_false (name : string) (dirs : list string) :
  filterDirs_loop name dirs = false <->
  exists dir, In dir dirs /\ strings_HasPrefix name dir = true.
Proof.
  induction dirs as [|d ds IH]; simpl.
  - split; [discriminate | intros [? [[] _]]].
  - destruct (strings_HasPrefix name d) eqn:Hd.
    + split; [intros _; exists d; auto | reflexivity].
    + rewrite IH. split; intros [x [Hin Hx]]; exists x; split; auto.
      destruct Hin as [<-|Hin]; [congruence | assumption].
Qed.

Lemma filterDirs_false_iff (fileInfo : FileInfo) :
  filterDirs fileInfo = false <-> ignored_name (Name fileInfo).
Proof.
  unfold filterDirs, ignored_name. rewrite filterDirs_loop_false.
  unfold strings_HasPrefix, ignoredDirs. split.
  - intros [dir [Hin Hpre]]. apply prefix_iff_append in Hpre as [rest Hrest].
    exists rest. simpl in Hin.
    destruct Hin as [<-|[<-|[<-|[]]]]; auto.
  - intros [rest [H|[H|H]]];
      [exists ".git" | exists ".cvs" | exists ".svn"];
      (split; [simpl; auto | apply prefix_iff_append; exists rest; exact H]).
Qed.

(** C7. [filterDirs] rejects an entry exactly when its name begins with
    [.git], [.cvs] or [.svn] (a prefix match on the name, whatever follows
    it and whatever the entry is), and accepts every other entry. *)
Theorem filterDirs_rejects_exactly (fileInfo : FileInfo) :
  (filterDirs fileInfo = false <->
     exists rest, Name fileInfo = (".git" ++ rest)%string \/
                  Name fileInfo = (".cvs" ++ rest)%string \/
                  Name fileInfo = (".svn" ++ rest)%string)
  /\ (filterDirs fileInfo = true <->
     forall rest, Name fileInfo <> (".git" ++ rest)%string /\
                  Name fileInfo <> (".cvs" ++ rest)%string /\
                  Name fileInfo <> (".svn" ++ rest)%string).
Proof.
  pose proof (filterDirs_false_iff fileInfo) as Hrej. unfold ignored_name in Hrej.
  split; [exact Hrej|].
  split.
  - intros Hacc rest.
    repeat split; intros H;
      assert (Hf : filterDirs fileInfo = false) by (apply Hrej; exists rest; auto);
      congruence.
  - intros Hall. destruct (filterDirs fileInfo) eqn:Hf; [reflexivity|].
    destruct Hrej as [Hr _]. destruct (Hr eq_refl) as [rest Hrest].
    destruct (Hall rest) as [H1 [H2 H3]].
    destruct Hrest as [H|[H|H]]; contradiction.
Qed.

Example filterDirs_examples :
  filterDirs {| Name := ".git"; IsDir := true |} = false
  /\ filterDirs {| Name := ".gitignore"; IsDir := false |} = false
  /\ filterDirs {| Name := ".svn-base"; IsDir := true |} = false
  /\ filterDirs {| Name := "src"; IsDir := true |} = true
  /\ filterDirs {| Name := "a.git"; IsDir := true |} = true
  /\ filterDirs {| Name := ".gi"; IsDir := true |} = true.
Proof. repeat split. Qed.

(** ** Running programs *)

Section RunFacts.
Variable E : Type -> Type.
Variable W : Type.
Variable h : handler E W.

Lemma run_bind (A B : Type) (p : prog E A) (k : A -> prog E B) (w : W) :
  run h (bind p k) w =
  match run h p w with
  | (Done a, w1, t1) => let '(o, w2, t2) := run h (k a) w1 in (o, w2, t1 ++ t2)
  | (Died m, w1, t1) => (Died m, w1, t1)
  | (Panicked m, w1, t1) => (Panicked m, w1, t1)
  end.
Proof.
  revert w. induction p as [a|m|m|X e k' IH]; intros w; simpl.
  - destruct (run h (k a) w) as [[o w2] t2]. reflexivity.
  - reflexivity.
  - reflexivity.
  - destruct (h e w) as [x w1]. rewrite IH.
    destruct (run h (k' x) w1) as [[[a|m|m] w2] t1]; try reflexivity.
    destruct (run h (k a) w2) as [[o w3] t2]. reflexivity.
Qed.

Lemma run_defer (A : Type) (d : prog E unit) (rest : prog E A) (w : W) :
  run h (defer d rest) w =
  match run h rest w with
  | (Done a, w1, t1) =>
      let '(o, w2, t2) := run h (bind d (fun _ => Ret a)) w1 in (o, w2, t1 ++ t2)
  | (Died m, w1, t1) => (Died m, w1, t1)
  | (Panicked m, w1, t1) =>
      let '(o, w2, t2) := run h (bind d (fun _ => Panic (A := A) m)) w1 in (o, w2, t1 ++ t2)
  end.
Proof.
  revert w. induction rest as [a|m|m|X e k' IH]; intros w; simpl.
  - destruct (run h (bind d (fun _ => Ret a)) w) as [[o w2] t2]. reflexivity.
  - reflexivity.
  - destruct (run h (bind d (fun _ => Panic m)) w) as [[o w2] t2]. reflexivity.
  - destruct (h e w) as [x w1]. rewrite IH.
    destruct (run h (k' x) w1) as [[[a|m|m] w2] t1]; try reflexivity.
    + destruct (run h (bind d (fun _ => Ret a)) w2) as [[o w3] t2]. reflexivity.
    + destruct (run h (bind d (fun _ => Panic m)) w2) as [[o w3] t2]. reflexivity.
Qed.
End RunFacts.

(** ** [verify] *)

Lemma bytes_Equal_iff (a b : list Byte.byte) : bytes_Equal a b = true <-> a = b.
Proof.
  revert b. induction a as [|x a IH]; intros [|y b]; simpl;
    try (split; [discriminate | discriminate]); [tauto|].
  rewrite andb_true_iff, IH. split.
  - intros [Hxy ->]. apply Byte.byte_dec_bl in Hxy. now subst.
  - intros H. injection H as -> ->. split; [now apply Byte.byte_dec_lb | reflexivity].
Qed.

Lemma BlockHash_eq (r x : sync.BlockHash) :
  sync.WeakHash r = sync.WeakHash x -> sync.StrongHash r = sync.StrongHash x -> r = x.
Proof. destruct r, x; simpl; intros -> ->; reflexivity. Qed.

Lemma skipn_nth_error (A : Type) (l : list A) (i : nat) (x : A) :
  nth_error l i = Some x -> skipn i l = x :: skipn (S i) l.
Proof.
  revert l. induction i as [|i IH]; intros [|y l]; simpl; try discriminate.
  - now intros [= ->].
  - intros H. now apply IH.
Qed.

(** What the comparison loop computes, from block [i] on: it returns when
    the recorded hashes are the computed ones, and otherwise dies at the
    first block [i + k] that differs, on the weak hash if that differs and
    on the strong hash if only that differs. *)
Lemma verify_loop_cases (hashes refHashes : list sync.BlockHash) (i : nat) :
  length hashes = i + length refHashes ->
  (verify_loop hashes i refHashes = Ret tt /\ skipn i hashes = refHashes)
  \/ exists k refHash hash,
      nth_error refHashes k = Some refHash /\
      nth_error hashes (i + k) = Some hash /\
      firstn k refHashes = firstn k (skipn i hashes) /\
      ((sync.WeakHash refHash <> sync.WeakHash hash /\
        verify_loop hashes i refHashes = Die (weak_message (i + k) refHash hash))
       \/ (sync.WeakHash refHash = sync.WeakHash hash /\
           sync.StrongHash refHash <> sync.StrongHash hash /\
           verify_loop hashes i refHashes = Die (strong_message (i + k) refHash hash))).
Proof.
  revert i. induction refHashes as [|refHash rest IH]; intros i Hlen; simpl in Hlen.
  - left. split; [reflexivity|]. apply skipn_all2. lia.
  - destruct (nth_error hashes i) as [hash|] eqn:Hnth;
      [| apply nth_error_None in Hnth; lia].
    simpl. unfold index. rewrite Hnth. simpl.
    destruct (sync.WeakHash refHash =? sync.WeakHash hash)%Z eqn:Hweak; simpl.
    + apply Z.eqb_eq in Hweak.
      destruct (bytes_Equal (sync.StrongHash refHash) (sync.StrongHash hash)) eqn:Hstrong; simpl.
      * apply bytes_Equal_iff in Hstrong.
        assert (Heq : refHash = hash) by now apply BlockHash_eq.
        subst hash.
        destruct (IH (S i)) as [[Hret Hskip]|(k & r & x & Hr & Hx & Hpre & Hdie)]; [lia| |].
        -- left. split; [exact Hret|].
           rewrite (skipn_nth_error _ _ Hnth). now rewrite Hskip.
        -- right. exists (S k), r, x. simpl.
           replace (i + S k) with (S i + k) by lia.
           repeat split; try assumption.
           rewrite (skipn_nth_error _ _ Hnth). simpl. now rewrite Hpre.
      * right. exists 0, refHash, hash. rewrite Nat.add_0_r.
        repeat split; try assumption.
        right. repeat split; try assumption.
        intros H. apply bytes_Equal_iff in H. congruence.
    + right. exists 0, refHash, hash. rewrite Nat.add_0_r.
      repeat split; try assumption.
      left. split; [|reflexivity]. now apply Z.eqb_neq.
Qed.

Ltac answer h :=
  match goal with
  | |- context [h ?X ?e ?w] =>
      let x := fresh "x" in
      let w' := fresh "w" in
      destruct (h X e w) as [x w']
  end.

Ltac split_answer :=
  match goal with
  | |- context [must_val ?r] => is_var r; destruct r
  | |- context [must ?r] => is_var r; destruct r
  | |- context [let (_, _) := ?p in _] => is_var p; destruct p
  end.

Lemma verify_run (W : Type) (h : handler Ev W) (w : W)
      (g : Globals) (signature output : string) :
  verify_behaviour signature output
    (outcome_of (run h (verify g signature output) w))
    (trace_of (run h (verify g signature output) w)).
Proof.
  unfold verify, outcome_of, trace_of.
  cbn -[verify_loop Nat.eqb].
  repeat (first [answer h | split_answer]; cbn -[verify_loop Nat.eqb]);
    repeat match goal with u : unit |- _ => destruct u end.
  - destruct (Nat.eqb_spec (length l0) (length l)) as [Hlen|Hlen]; cbn -[verify_loop].
    + destruct (@verify_loop_cases l0 l 0 Hlen)
        as [[Hret Hall]|(i & refHash & hash & Href & Hhash & Hpre & Hdie)].
      * rewrite Hret. simpl in Hall. subst l0. cbn.
        repeat (answer h; cbn).
        repeat match goal with u : unit |- _ => destruct u end.
        apply verify_succeeds.
      * simpl in Hhash, Hpre, Hdie.
        destruct Hdie as [[Hweak Hdie]|(Hweak & Hstrong & Hdie)]; rewrite Hdie; cbn.
        -- now apply verify_weak_mismatch.
        -- now apply verify_strong_mismatch.
    + now apply verify_length_mismatch.
  - apply verify_hashing_failed.
  - apply verify_read_failed.
  - apply verify_open_failed.
Qed.

Ltac units := repeat match goal with u : unit |- _ => destruct u end.

Ltac walk_run h := repeat (first [answer h | split_answer]; cbn); units.

(** ** [apply] *)

Lemma apply_run (W : Type) (h : handler Ev W) (w : W)
      (g : Globals) (recipe target output : string) :
  apply_behaviour recipe target output
    (outcome_of (run h (apply g recipe target output) w))
    (trace_of (run h (apply g recipe target output) w)).
Proof.
  unfold apply, outcome_of, trace_of. cbn. walk_run h.
  - apply apply_recipe_failed.
  - apply apply_rebuilt.
  - apply apply_open_failed.
Qed.

(** ** [diff]: the target *)

Lemma diff_target_run (W : Type) (h : handler Ev W) (w : W) (target : string) :
  diff_target_behaviour target
    (outcome_of (run h (diff_target target) w))
    (trace_of (run h (diff_target target) w)).
Proof.
  unfold diff_target, outcome_of, trace_of.
  destruct (String.eqb_spec target "/dev/null") as [Heq|Hne].
  - cbn. now apply target_sentinel.
  - cbn. answer h. cbn. destruct x as [targetInfo|e]; cbn.
    + destruct (IsDir targetInfo) eqn:Hdir; cbn; walk_run h.
      * apply target_directory; auto. apply target_hashed.
      * apply target_directory; auto. apply target_hashing_failed.
      * apply target_directory; auto. apply target_walk_failed.
      * apply target_signature_file; auto. apply target_close_failed.
      * apply target_signature_file; auto. apply target_parsed.
      * apply target_signature_file; auto. apply target_parse_failed.
      * apply target_signature_file; auto. apply target_open_failed.
    + now apply target_lstat_failed.
Qed.

(** ** [diff] *)

Lemma diff_target_no_panic (target : string) (m : text) (tr : list (call Ev)) :
  ~ diff_target_behaviour target (Panicked m) tr.
Proof.
  intros H. inversion H as [| | ? ? ? ? ? Hw | ? ? ? ? ? Hr]; subst.
  - inversion Hw.
  - inversion Hr.
Qed.

Ltac walk_diff h :=
  repeat (first [answer h | split_answer];
          cbn -[diff_target apply verify int32 String.append]);
  units.

(** Names the written part of the trace in the goal. *)
Ltac written_part g source recipe Hw :=
  rewrite <- ?app_assoc; cbn [app];
  match goal with
  | |- context [time_Now |-> ?t :: _ ++
                  tlc_Walk _ _ |-> inl ?c :: _ :: _ :: _ :: _ ::
                  DiffContext_WriteRecipe
                    {| pwr.SourceContainer := _; pwr.SourcePath := _;
                       pwr.TargetContainer := ?tc; pwr.TargetSignature := ?ts;
                       pwr.Consumer := _; pwr.Compression := _;
                       pwr.ReusedBytes := _; pwr.FreshBytes := _ |}
                    (counter.NewWriter ?rw) (counter.NewWriter ?sw) |-> (?d, None)
                  :: _ :: time_Since _ |-> ?el :: Writer_Count _ |-> ?rc
                  :: Writer_Count _ |-> ?sc :: _] =>
      pose proof (diff_written_intro g source recipe t tc ts rw sw c d el rc sc) as Hw
  end.

Lemma diff_run (W : Type) (h : handler Ev W) (w : W)
      (g : Globals) (target source recipe : string) (brotliQuality : Z) :
  diff_behaviour g target source recipe
    (outcome_of (run h (diff g target source recipe brotliQuality) w))
    (trace_of (run h (diff g target source recipe brotliQuality) w)).
Proof.
  unfold diff, outcome_of, trace_of.
  cbn -[diff_target apply verify int32 String.append]. answer h. rewrite run_bind.
  pose proof (diff_target_run h w0 target) as Htarget.
  unfold outcome_of, trace_of in Htarget.
  destruct (run h (diff_target target) w0) as [[[[tc ts]|m|m] w1] tr];
    cbn -[diff_target apply verify int32 String.append] in *.
  - walk_diff h.
    + eapply diff_write_failed; eassumption.
    + destruct (diff_verify (diffArgs g)) eqn:Hflag;
        cbn -[diff_target apply verify int32 String.append].
      * walk_diff h.
        -- rewrite !run_defer, run_bind.
           match goal with
           | |- context [run h (apply g recipe target ?d) ?w] =>
               pose proof (apply_run h w g recipe target d) as Happly;
               unfold outcome_of, trace_of in Happly;
               destruct (run h (apply g recipe target d) w) as [[[[]|m|m] wa] ta]
           end;
             cbn -[diff_target apply verify int32 String.append] in *.
           ++ match goal with
              | |- context [run h (verify g ?p ?d) ?w] =>
                  pose proof (verify_run h w g p d) as Hverify;
                  unfold outcome_of, trace_of in Hverify;
                  destruct (run h (verify g p d) w) as [[[[]|m|m] wv] tv]
              end;
                cbn -[diff_target apply verify int32 String.append] in *.
              ** walk_diff h. written_part g source recipe Hw.
                 exact (diff_verified x0 x1 x2 x6 Hflag Htarget Hw Happly Hverify).
              ** written_part g source recipe Hw.
                 exact (diff_verify_died x0 Hflag Htarget Hw Happly Hverify).
              ** inversion Hverify.
           ++ written_part g source recipe Hw.
              exact (diff_apply_died x0 Hflag Htarget Hw Happly).
           ++ inversion Happly.
        -- written_part g source recipe Hw.
           exact (diff_tempdir_failed x0 e Hflag Htarget Hw).
      * walk_diff h. written_part g source recipe Hw.
        exact (diff_unverified x0 x1 Hflag Htarget Hw).
    + eapply diff_create_signature_failed; eassumption.
    + eapply diff_create_failed; eassumption.
    + eapply diff_walk_failed; eassumption.
  - now apply diff_target_died.
  - now apply diff_target_no_panic in Htarget.
Qed.

(** ** What the traces contain *)

Lemma pick_app (B : Type) (f : call Ev -> option B) (a b : list (call Ev)) :
  pick f (a ++ b) = pick f a ++ pick f b.
Proof. unfold pick. apply flat_map_app. Qed.

Lemma pick_nil (B : Type) (f : call Ev -> option B) : pick f [] = [].
Proof. reflexivity. Qed.

Lemma pick_cons (B : Type) (f : call Ev -> option B) (c : call Ev) (l : list (call Ev)) :
  pick f (c :: l) = match f c with Some b => [b] | None => [] end ++ pick f l.
Proof. reflexivity. Qed.

Create Rewrite HintDb trace.
#[local] Hint Rewrite pick_app pick_cons pick_nil : trace.

Lemma target_trace (target : string)
      (o : outcome (tlc.Container * list sync.BlockHash)) (tr : list (call Ev)) :
  diff_target_behaviour target o tr ->
  applied_calls tr = [] /\ recipe_contexts tr = [] /\
  (forall p, In p (walk_calls tr) -> p = (target, Some filterDirs)) /\
  written_recipes tr = [].
Proof.
  intros H. destruct H as [| | ? ? ? ? ? Hw | ? ? ? ? ? Hr];
    [| | destruct Hw | destruct Hr]; cbn; repeat split; try tauto;
    intros p [<-|[]]; reflexivity.
Qed.

Lemma apply_trace (recipe target output : string) (o : outcome unit) (tr : list (call Ev)) :
  apply_behaviour recipe target output o tr ->
  recipe_contexts tr = [] /\ walk_calls tr = [] /\
  (forall a, In a (applied_calls tr) -> fst (fst a) = apply_context target output) /\
  (o = Done tt -> exists f, applied_calls tr = [(apply_context target output, f, None)]).
Proof.
  intros H. destruct H; cbn; repeat split; try tauto; try discriminate.
  - intros a [<-|[]]. reflexivity.
  - intros a [<-|[]]. reflexivity.
  - intros _. eexists. reflexivity.
Qed.

Lemma verify_trace (signature output : string) (o : outcome unit) (tr : list (call Ev)) :
  verify_behaviour signature output o tr ->
  applied_calls tr = [] /\ recipe_contexts tr = [] /\ walk_calls tr = [].
Proof. intros H. destruct H; cbn; repeat split. Qed.

Lemma written_trace (g : Globals) (source recipe : string) (t : Z) (tc : tlc.Container)
      (ts : list sync.BlockHash) (rw sw : File) (tr : list (call Ev)) :
  diff_written g source recipe t tc ts rw sw tr ->
  applied_calls tr = [] /\
  (exists sourceContainer,
      recipe_contexts tr = [diff_context g source tc ts sourceContainer] /\
      In (tlc_Walk source (Some filterDirs) |-> inl sourceContainer) tr) /\
  walk_calls tr = [(source, Some filterDirs)].
Proof.
  intros H. destruct H. cbn. repeat split. eexists. split; [reflexivity|]. now left.
Qed.

(** ** Claims on [verify] *)

(** C1. Whatever the environment answers, a run of [verify signature output]
    reads the signature, hashes [output] against the recorded container and
    compares the two lists: it dies when the numbers of hashes differ, dies
    at the first block whose weak or strong hash differs from the recorded
    one, and returns only when all the hashes are the recorded ones. *)
Theorem verify_compares_blockwise (W : Type) (h : handler Ev W) (w : W)
        (g : Globals) (signature output : string) :
  verify_behaviour signature output
    (outcome_of (run h (verify g signature output) w))
    (trace_of (run h (verify g signature output) w)).
Proof. apply verify_run. Qed.

(** Three runs of [verify]: the hashes are the recorded ones; the second
    block has another weak hash; one block is missing. *)
Example verify_runs :
  outcome_of (run (scripted an_env) (verify (some_flags false) "new.sig" "new") 0%Z)
  = Done tt
  /\ outcome_of (run (scripted (with_hashes [block 7 [Byte.x01]; block 9 [Byte.x02]]
                                            [block 7 [Byte.x01]; block 8 [Byte.x02]]))
                     (verify (some_flags false) "new.sig" "new") 0%Z)
     = Died (Sprintf "At block %d, expected weak hash %x, got %x"
               [AInt 1; AUint32 9; AUint32 8])
  /\ outcome_of (run (scripted (with_hashes [block 7 [Byte.x01]; block 9 [Byte.x02]]
                                            [block 7 [Byte.x01]]))
                     (verify (some_flags false) "new.sig" "new") 0%Z)
     = Died (Sprintf "Expected %d blocks, got %d." [AInt 2; AInt 1]).
Proof. repeat split. Qed.




(** ** Claims on [diff] and [apply] *)

(** Collects what the parts of a trace contain. *)
Ltac trace_facts :=
  repeat match goal with
    | H : diff_target_behaviour _ _ _ |- _ =>
        let Ha := fresh "Ha" in
        let Hc := fresh "Hc" in
        let Hw := fresh "Hw" in
        let Hr := fresh "Hr" in
        destruct (target_trace H) as (Ha & Hc & Hw & Hr); revert H
    | H : apply_behaviour _ _ _ _ _ |- _ =>
        let Ha := fresh "Ha" in
        let Hc := fresh "Hc" in
        let Hw := fresh "Hw" in
        let Hd := fresh "Hd" in
        destruct (apply_trace H) as (Hc & Hw & Ha & Hd); revert H
    | H : verify_behaviour _ _ _ _ |- _ =>
        let Ha := fresh "Ha" in
        let Hc := fresh "Hc" in
        let Hw := fresh "Hw" in
        destruct (verify_trace H) as (Ha & Hc & Hw); revert H
    | H : diff_written _ _ _ _ _ _ _ _ _ |- _ =>
        let Ha := fresh "Ha" in
        let Hc := fresh "Hc" in
        let Hw := fresh "Hw" in
        let Hs := fresh "Hs" in
        destruct (written_trace H) as (Ha & (? & Hc & Hs) & Hw); revert H
    end;
  intros.

Ltac read_trace :=
  unfold applied_calls, recipe_contexts, walk_calls, written_recipes,
    diff_tempdir, diff_closes, diff_opens, diff_writes, diff_reports in *;
  autorewrite with trace in *;
  repeat match goal with
    | H : pick _ _ = _ |- _ => rewrite H in *
    end;
  cbn [applied_call recipe_context walk_call written_recipe app] in *.

(** The contexts that a run of [diff] hands to [WriteRecipe]: none, or the
    one built from what the target gave. *)
Lemma diff_recipe_contexts (g : Globals) (target source recipe : string)
      (o : outcome unit) (trace : list (call Ev)) :
  diff_behaviour g target source recipe o trace ->
  forall dctx, In dctx (recipe_contexts trace) ->
    exists t tr rest,
      diff_target_behaviour target
        (Done (pwr.TargetContainer dctx, pwr.TargetSignature dctx)) tr /\
      trace = time_Now |-> t :: tr ++ rest.
Proof.
  intros H dctx Hin. destruct H; trace_facts; read_trace;
    try (now destruct Hin);
    destruct Hin as [<-|[]]; cbn; do 3 eexists; (split; [eassumption | reflexivity]).
Qed.

(** C2. Every run of [diff] begins by reading its target, in exactly
    three ways: the sentinel [/dev/null] gives the empty container and no
    hashes, without any call; a path that [os.Lstat] reports as a directory
    is walked (with [filterDirs]) and hashed ([target_walked]); any other
    path is opened, read as a signature file and closed ([target_read]).  Where this
    fails, [diff] dies there and calls nothing more.  Where it gives a
    container and a signature, [diff] goes on to walk the source, and these
    two are the target container and the target signature of the context it
    hands to [WriteRecipe]; a run that returns has handed over exactly one
    such context. *)
Theorem diff_reads_target_three_ways (W : Type) (h : handler Ev W) (w : W)
        (g : Globals) (target source recipe : string) (brotliQuality : Z) :
  let r := run h (diff g target source recipe brotliQuality) w in
  exists t o tr rest,
    trace_of r = time_Now |-> t :: tr ++ rest
    /\ diff_target_behaviour target o tr
    /\ (target = "/dev/null" -> tr = [] /\ o = Done (tlc.empty, []))
    /\ (target <> "/dev/null" ->
        (exists e, tr = [os_Lstat target |-> inr e] /\ o = Died e)
        \/ (exists targetInfo read,
               tr = os_Lstat target |-> inl targetInfo
                      :: comm_Logf (if IsDir targetInfo
                                    then "Computing signature of %s"
                                    else "Reading signature from file %s")
                           [AStr target] |-> tt
                      :: read
               /\ if IsDir targetInfo
                  then target_walked target o read
                  else target_read target o read))
    /\ match o with
       | Done (targetContainer, targetSignature) =>
           (exists walked more, rest = tlc_Walk source (Some filterDirs) |-> walked :: more)
           /\ (forall dctx, In dctx (recipe_contexts (trace_of r)) ->
                            pwr.TargetContainer dctx = targetContainer
                            /\ pwr.TargetSignature dctx = targetSignature)
           /\ (outcome_of r = Done tt ->
               exists dctx, recipe_contexts (trace_of r) = [dctx])
       | Died m => rest = [] /\ outcome_of r = Died m
       | Panicked _ => False
       end.
Proof.
  intros r. subst r.
  pose proof (diff_run h w g target source recipe brotliQuality) as H.
  revert H.
  generalize (outcome_of (run h (diff g target source recipe brotliQuality) w))
             (trace_of (run h (diff g target source recipe brotliQuality) w)).
  intros o trace H.
  assert (Hways : forall o' tr, diff_target_behaviour target o' tr ->
            (target = "/dev/null" -> tr = [] /\ o' = Done (tlc.empty, []))
            /\ (target <> "/dev/null" ->
                (exists e, tr = [os_Lstat target |-> inr e] /\ o' = Died e)
                \/ (exists targetInfo read,
                       tr = os_Lstat target |-> inl targetInfo
                              :: comm_Logf (if IsDir targetInfo
                                            then "Computing signature of %s"
                                            else "Reading signature from file %s")
                                   [AStr target] |-> tt
                              :: read
                       /\ if IsDir targetInfo
                          then target_walked target o' read
                          else target_read target o' read))).
  { intros o' tr Ht.
    destruct Ht as [Heq|e Hne|targetInfo o' tr Hne Hdir Hwalked|targetInfo o' tr Hne Hdir Hread];
      (split; [intros Heq' | intros Hne']); try contradiction.
    - split; reflexivity.
    - left. exists e. split; reflexivity.
    - right. exists targetInfo, tr. rewrite Hdir. split; [reflexivity | exact Hwalked].
    - right. exists targetInfo, tr. rewrite Hdir. split; [reflexivity | exact Hread]. }
  destruct H as [t m tr Ht|t tc ts tr e Ht|t tc ts tr sc e Ht|t tc ts tr sc rw e Ht
                 |t tc ts tr sc rw sw dctx e Ht
                 |t tc ts tr rw sw written cs cr Hflag Ht Hw
                 |t tc ts tr rw sw written tmp e Hflag Ht Hw
                 |t tc ts tr rw sw written tmp tmpDir m applied Hflag Ht Hw Happ
                 |t tc ts tr rw sw written tmp tmpDir m applied verified Hflag Ht Hw Happ Hver
                 |t tc ts tr rw sw written tmp tmpDir applied verified removed cs cr
                    Hflag Ht Hw Happ Hver];
    try match goal with
        | Hw : diff_written _ _ _ _ _ _ _ _ _ |- _ =>
            destruct Hw as [sc dctx elapsed rc sgc]
        end.
  1: { (* the target could not be read *)
    exists t, (Died m), tr, []. rewrite app_nil_r.
    split; [reflexivity|]. split; [exact Ht|].
    split; [apply (Hways _ _ Ht)|]. split; [apply (Hways _ _ Ht)|].
    split; reflexivity. }
  (* the target gave [tc] and [ts] *)
  all: exists t, (Done (tc, ts)), tr; eexists;
    (split; [reflexivity|]); (split; [exact Ht|]);
    (split; [apply (Hways _ _ Ht)|]); (split; [apply (Hways _ _ Ht)|]);
    (split; [unfold diff_opens; do 2 eexists; reflexivity|]);
    trace_facts; read_trace;
    (split; [ intros d Hin;
              first [now destruct Hin | destruct Hin as [<-|[]]; split; reflexivity]
            | first [discriminate | intros _; eexists; reflexivity] ]).
Qed.

Lemma diff_reads_target_three_ways_witness :
  let r := run (scripted an_env) (diff (some_flags false) "old" "new" "patch.pwr" 1) 0%Z in
  exists t o tr rest,
    trace_of r = time_Now |-> t :: tr ++ rest
    /\ diff_target_behaviour "old" o tr
    /\ ("old" = "/dev/null" -> tr = [] /\ o = Done (tlc.empty, []))
    /\ ("old" <> "/dev/null" ->
        (exists e, tr = [os_Lstat "old" |-> inr e] /\ o = Died e)
        \/ (exists targetInfo read,
               tr = os_Lstat "old" |-> inl targetInfo
                      :: comm_Logf (if IsDir targetInfo
                                    then "Computing signature of %s"
                                    else "Reading signature from file %s")
                           [AStr "old"] |-> tt
                      :: read
               /\ if IsDir targetInfo
                  then target_walked "old" o read
                  else target_read "old" o read))
    /\ match o with
       | Done (targetContainer, targetSignature) =>
           (exists walked more, rest = tlc_Walk "new" (Some filterDirs) |-> walked :: more)
           /\ (forall dctx, In dctx (recipe_contexts (trace_of r)) ->
                            pwr.TargetContainer dctx = targetContainer
                            /\ pwr.TargetSignature dctx = targetSignature)
           /\ (outcome_of r = Done tt ->
               exists dctx, recipe_contexts (trace_of r) = [dctx])
       | Died m => rest = [] /\ outcome_of r = Died m
       | Panicked _ => False
       end.
Proof.
  exact (diff_reads_target_three_ways (scripted an_env) 0%Z (some_flags false)
           "old" "new" "patch.pwr" 1).
Defined.

(** The three ways, run: the first calls of [diff] on the sentinel, on a
    directory and on another path, and the target it hands to
    [WriteRecipe] each time. *)
Example diff_targets_run :
  let diff_of target :=
    run (scripted an_env) (diff (some_flags false) target "new" "patch.pwr" 1) 0%Z in
  firstn 2 (trace_of (diff_of "/dev/null"))
  = [time_Now |-> 0%Z; tlc_Walk "new" (Some filterDirs) |-> inl a_container]
  /\ map (fun dctx => (pwr.TargetContainer dctx, pwr.TargetSignature dctx))
        (recipe_contexts (trace_of (diff_of "/dev/null")))
     = [(tlc.empty, [])]
  /\ firstn 8 (trace_of (diff_of "old"))
     = [time_Now |-> 0%Z;
        os_Lstat "old" |-> inl {| Name := "old"; IsDir := true |};
        comm_Logf "Computing signature of %s" [AStr "old"] |-> tt;
        tlc_Walk "old" (Some filterDirs) |-> inl a_container;
        comm_StartProgress |-> tt;
        pwr_ComputeSignature a_container "old" comm.NewStateConsumer
          |-> inl [block 7 [Byte.x01]];
        comm_EndProgress |-> tt;
        tlc_Walk "new" (Some filterDirs) |-> inl a_container]
  /\ map (fun dctx => (pwr.TargetContainer dctx, pwr.TargetSignature dctx))
        (recipe_contexts (trace_of (diff_of "old")))
     = [(a_container, [block 7 [Byte.x01]])]
  /\ firstn 7 (trace_of (diff_of "old.pwr.sig"))
     = [time_Now |-> 0%Z;
        os_Lstat "old.pwr.sig" |-> inl {| Name := "old.pwr.sig"; IsDir := false |};
        comm_Logf "Reading signature from file %s" [AStr "old.pwr.sig"] |-> tt;
        os_Open "old.pwr.sig" |-> inl {| fd := 1; file_name := "old.pwr.sig" |};
        pwr_ReadSignature {| fd := 1; file_name := "old.pwr.sig" |}
          |-> inl (a_container, [block 7 [Byte.x01]]);
        File_Close {| fd := 1; file_name := "old.pwr.sig" |} |-> None;
        tlc_Walk "new" (Some filterDirs) |-> inl a_container]
  /\ map (fun dctx => (pwr.TargetContainer dctx, pwr.TargetSignature dctx))
        (recipe_contexts (trace_of (diff_of "old.pwr.sig")))
     = [(a_container, [block 7 [Byte.x01]])].
Proof. repeat split. Qed.

(** C3. With the verify flag set, a run of [diff] that has written the
    recipe and its signature creates a temporary directory, applies the
    recipe into it (against [target]), then runs [verify] on it with the
    signature file [recipe ++ ".sig"] that it wrote next to the recipe.  If
    that verification dies, [diff] dies with its message; if it passes, the
    directory is removed. *)
Theorem diff_verifies_what_it_wrote (W : Type) (h : handler Ev W) (w : W)
        (g : Globals) (target source recipe : string) (brotliQuality : Z) :
  diff_verify (diffArgs g) = true ->
  inline_verification g target source recipe
    (outcome_of (run h (diff g target source recipe brotliQuality) w))
    (trace_of (run h (diff g target source recipe brotliQuality) w)).
Proof.
  intros Hflag.
  pose proof (diff_run h w g target source recipe brotliQuality) as H.
  revert H.
  generalize (outcome_of (run h (diff g target source recipe brotliQuality) w))
             (trace_of (run h (diff g target source recipe brotliQuality) w)).
  intros o trace H.
  destruct H as [| | | | |? ? ? ? rw sw written|? ? ? ? rw sw written
                 |? ? ? ? rw sw written|? ? ? ? rw sw written|? ? ? ? rw sw written];
    [apply verification_not_reached; trace_facts; read_trace; reflexivity ..
    | congruence | | | | ];
    match goal with
    | Ht : diff_target_behaviour _ _ ?tr, Hw : diff_written _ _ _ ?t _ _ _ _ _ |- _ =>
        assert (Hbefore : recipe_written g target source recipe rw sw
                            (time_Now |-> t :: tr ++ written))
          by (do 5 eexists; split; [eassumption | split; [eassumption | reflexivity]]);
        change (time_Now |-> t :: tr ++ written ++ ?rest)
          with (time_Now |-> t :: (tr ++ written ++ rest));
        rewrite (app_assoc tr written);
        change (time_Now |-> t :: (tr ++ written) ++ ?rest)
          with ((time_Now |-> t :: tr ++ written) ++ rest)
    end.
  - eapply verification_without_directory; eassumption.
  - eapply verification_apply_died; eassumption.
  - eapply verification_failed; eassumption.
  - eapply verification_passed; eassumption.
Qed.

Lemma diff_verifies_what_it_wrote_witness :
  inline_verification (some_flags true) "old" "new" "patch.pwr"
    (outcome_of (run (scripted an_env) (diff (some_flags true) "old" "new" "patch.pwr" 1) 0%Z))
    (trace_of (run (scripted an_env) (diff (some_flags true) "old" "new" "patch.pwr" 1) 0%Z)).
Proof.
  apply (@diff_verifies_what_it_wrote Z (scripted an_env) 0%Z (some_flags true)
           "old" "new" "patch.pwr" 1).
  reflexivity.
Defined.

(** In that environment the run goes through: the recipe is applied into
    the temporary directory and verified there. *)
Example diff_verified_run :
  outcome_of (run (scripted an_env) (diff (some_flags true) "old" "new" "patch.pwr" 1) 0%Z)
  = Done tt
  /\ applied_calls
       (trace_of (run (scripted an_env) (diff (some_flags true) "old" "new" "patch.pwr" 1) 0%Z))
     = [(apply_context "old" "/tmp/pwr1", {| fd := 4; file_name := "patch.pwr" |}, None)].
Proof. split; reflexivity. Qed.

(** The calls of [ApplyRecipe] in a run of [diff]. *)
Lemma diff_applied_calls (g : Globals) (target source recipe : string)
      (o : outcome unit) (trace : list (call Ev)) :
  diff_behaviour g target source recipe o trace ->
  (forall a, In a (applied_calls trace) ->
             exists tmpDir, fst (fst a) = apply_context target tmpDir)
  /\ (diff_verify (diffArgs g) = true -> o = Done tt ->
      exists tmpDir f, applied_calls trace = [(apply_context target tmpDir, f, None)]).
Proof.
  intros H.
  destruct H as [| | | | | | |? ? ? ? ? ? ? ? tmpDir|? ? ? ? ? ? ? ? tmpDir|? ? ? ? ? ? ? ? tmpDir];
    trace_facts; read_trace; (split; [intros a Hin | intros Hflag Ho]);
    try (now destruct Hin); try discriminate; try congruence.
  - exists tmpDir. auto.
  - exists tmpDir. rewrite app_nil_r in Hin. auto.
  - exists tmpDir. rewrite app_nil_r in Hin. auto.
  - destruct (Hd eq_refl) as [f Hf]. exists tmpDir, f.
    unfold applied_calls in Hf. rewrite Hf. reflexivity.
Qed.

(** C10. Every call of [ApplyRecipe] in a run of [diff] has the [target]
    argument of [diff], as it was given, for its target path: also when the
    argument is [/dev/null] or the path of a signature file.  A run with the
    verify flag set that returns has made exactly one such call. *)
Theorem diff_applies_against_its_target_argument (W : Type) (h : handler Ev W) (w : W)
        (g : Globals) (target source recipe : string) (brotliQuality : Z) :
  (forall actx patchReader err,
      In (actx, patchReader, err)
         (applied_calls (trace_of (run h (diff g target source recipe brotliQuality) w))) ->
      pwr.TargetPath actx = target)
  /\ (diff_verify (diffArgs g) = true ->
      outcome_of (run h (diff g target source recipe brotliQuality) w) = Done tt ->
      exists tmpDir patchReader,
        applied_calls (trace_of (run h (diff g target source recipe brotliQuality) w))
        = [(apply_context target tmpDir, patchReader, None)]).
Proof.
  destruct (diff_applied_calls (diff_run h w g target source recipe brotliQuality))
    as [Hall Hone].
  split; [|exact Hone].
  intros actx patchReader err Hin.
  destruct (Hall _ Hin) as [tmpDir Heq]. simpl in Heq. subst actx. reflexivity.
Qed.

Lemma diff_applies_against_its_target_argument_witness :
  exists tmpDir patchReader,
    applied_calls
      (trace_of (run (scripted an_env)
                     (diff (some_flags true) "/dev/null" "new" "patch.pwr" 1) 0%Z))
    = [(apply_context "/dev/null" tmpDir, patchReader, None)].
Proof.
  apply (proj2 (@diff_applies_against_its_target_argument Z (scripted an_env) 0%Z
                  (some_flags true) "/dev/null" "new" "patch.pwr" 1));
    reflexivity.
Defined.

(** With the path of a signature file ([old.sig] is no directory of that
    environment) the target path of [ApplyRecipe] is that file's path. *)
Example diff_applies_against_a_signature_file :
  map (fun a => pwr.TargetPath (fst (fst a)))
      (applied_calls
         (trace_of (run (scripted an_env)
                        (diff (some_flags true) "old.sig" "new" "patch.pwr" 1) 0%Z)))
  = ["old.sig"].
Proof. reflexivity. Qed.

(** C6. [apply] does not depend on the flags [verify], [reverse] and
    [inplace] of [applyArgs]: with any two settings of them, and the same
    recipe, target and output paths, it is the same program, so that in any
    environment the two runs make the same calls and end the same way. *)
Theorem apply_ignores_its_flags (W : Type) (h : handler Ev W) (w : W) (g : Globals)
        (recipe target output : string)
        (verify1 reverse1 : string) (inplace1 : bool)
        (verify2 reverse2 : string) (inplace2 : bool) :
  apply (with_apply_flags g verify1 reverse1 inplace1) recipe target output
  = apply (with_apply_flags g verify2 reverse2 inplace2) recipe target output
  /\ run h (apply (with_apply_flags g verify1 reverse1 inplace1) recipe target output) w
     = run h (apply (with_apply_flags g verify2 reverse2 inplace2) recipe target output) w.
Proof. split; reflexivity. Qed.

(** ** [sign] *)

Lemma stream_run (W : Type) (h : handler Ev W) (sigWire : wire.WriteContext)
      (hashes : list sync.BlockHash) (w : W) :
  exists r w' tr,
    run h (stream_hashes
             (fun hash => trigger (WriteContext_WriteMessage sigWire
                                     (pwr.BlockHash (sync.WeakHash hash) (sync.StrongHash hash))))
             hashes) w = (Done r, w', tr)
    /\ streamed sigWire hashes r tr.
Proof.
  revert w. induction hashes as [|hash rest IH]; intros w.
  - exists None, w, []. split; [reflexivity | constructor].
  - cbn [stream_hashes trigger bind run].
    destruct (h _ (WriteContext_WriteMessage sigWire
                     (pwr.BlockHash (sync.WeakHash hash) (sync.StrongHash hash))) w)
      as [[e|] w1].
    + exists (Some e), w1. eexists. split; [reflexivity | apply streamed_stop].
    + destruct (IH w1) as (r & w' & tr & Hrun & Hs).
      rewrite Hrun. exists r, w'. eexists. split; [reflexivity|].
      now apply streamed_next.
Qed.

Lemma sign_run (W : Type) (h : handler Ev W) (w : W)
      (g : Globals) (output signature : string) :
  sign_behaviour output signature
    (outcome_of (run h (sign g output signature) w))
    (trace_of (run h (sign g output signature) w)).
Proof.
  unfold sign, pwr_ComputeSignatureToWriter, outcome_of, trace_of.
  cbn -[stream_hashes].
  repeat (first [answer h | split_answer]; cbn -[stream_hashes]); units.
  - rewrite !run_bind.
    match goal with
    | |- context [run h (stream_hashes _ ?l) ?w] =>
        destruct (stream_run h w7 l w) as (r & w' & tr & Hrun & Hs)
    end.
    rewrite Hrun. destruct r as [e|]; cbn.
    + walk_run h. rewrite app_nil_r.
      exact (@sign_write_failed output signature x c f x0 x1 x2 w7 x3 l o e tr Hs).
    + walk_run h; rewrite ?app_nil_r.
      * exact (@sign_hashing_failed output signature x c f x0 x1 x2 w7 x3 l e tr Hs).
      * exact (@sign_close_failed output signature x c f x0 x1 x2 w7 x3 l e tr Hs).
      * exact (@sign_signed output signature x c f x0 x1 x2 w7 x3 l tr _ Hs).
  - apply (@sign_compress_failed output signature x c f x0 x1 x2 e).
  - apply sign_create_failed.
  - apply sign_walk_failed.
Qed.

Lemma streamed_writes (sigWire : wire.WriteContext) (hashes : list sync.BlockHash)
      (r : option error) (tr : list (call Ev)) :
  streamed sigWire hashes r tr ->
  begins (wire_writes tr) (map (fun hash => WMessage sigWire (block_message hash)) hashes)
  /\ (r = None ->
      wire_writes tr = map (fun hash => WMessage sigWire (block_message hash)) hashes).
Proof.
  induction 1 as [|hash rest e|hash rest r tr Hs [[more IHb] IHn]].
  - split; [exists []; reflexivity | reflexivity].
  - split; [|discriminate]. eexists. cbn. reflexivity.
  - unfold wire_writes in *. rewrite pick_cons. cbn [wire_write_of app map]. split.
    + exists more. rewrite IHb. reflexivity.
    + intros Hr. now rewrite IHn.
Qed.

Lemma sign_writes (output signature : string) (o : outcome unit) (tr : list (call Ev)) :
  sign_behaviour output signature o tr ->
  wire_writes tr = []
  \/ exists signatureWriter sigWire compression container hashes,
      begins (wire_writes tr)
        (signature_writes (wire.NewWriteContext signatureWriter) sigWire
           compression container hashes)
      /\ (o = Done tt ->
          wire_writes tr =
          signature_writes (wire.NewWriteContext signatureWriter) sigWire
            compression container hashes).
Proof.
  intros H.
  destruct H as [| |t c f comp me he e
                 |t c f comp me he sw ce hashes failure e tr Hs
                 |t c f comp me he sw ce hashes e tr Hs
                 |t c f comp me he sw ce hashes e tr Hs
                 |t c f comp me he sw ce hashes tr el Hs];
    [left; reflexivity | left; reflexivity | right; exists f .. ].
  - exists (wire.NewWriteContext f), comp, c, []. split; [|discriminate].
    eexists. cbn. reflexivity.
  - exists sw, comp, c, hashes. split; [|discriminate].
    destruct (streamed_writes Hs) as [[more Hb] _].
    exists more. unfold wire_writes, signature_writes, sign_header, sign_container in *.
    autorewrite with trace. cbn [wire_write_of app]. rewrite Hb, <- app_assoc. reflexivity.
  - exists sw, comp, c, hashes. split; [|discriminate].
    destruct (streamed_writes Hs) as [_ Hall]. exists [].
    unfold wire_writes, signature_writes, sign_header, sign_container in *.
    autorewrite with trace. cbn [wire_write_of app]. rewrite (Hall eq_refl), !app_nil_r.
    reflexivity.
  - exists sw, comp, c, hashes. split; [|discriminate].
    destruct (streamed_writes Hs) as [_ Hall]. exists [].
    unfold wire_writes, signature_writes, sign_header, sign_container in *.
    autorewrite with trace. cbn [wire_write_of app]. rewrite (Hall eq_refl), !app_nil_r.
    reflexivity.
  - exists sw, comp, c, hashes.
    destruct (streamed_writes Hs) as [_ Hall].
    assert (Heq : wire_writes
                    (sign_header output signature t c f comp me he ++
                     sign_container output c f comp sw ce (hashes, None) ++
                     tr ++
                     [comm_EndProgress |-> tt; WriteContext_Close sw |-> None;
                      time_Since t |-> el;
                      comm_Logf "Hashed %s in %s (%s/s)"
                        [AHumanBytes (tlc.Size c); ADuration el;
                         APerSecond (tlc.Size c) el] |-> tt])
                  = signature_writes (wire.NewWriteContext f) sw comp c hashes).
    { unfold wire_writes, signature_writes, sign_header, sign_container in *.
      autorewrite with trace. cbn [wire_write_of app]. rewrite (Hall eq_refl), !app_nil_r.
      reflexivity. }
    split; [exists []; now rewrite app_nil_r | intros _; exact Heq].
Qed.

(** C4. In a run of [sign], whatever the environment answers, what is
    written comes in this order: the signature magic and then the header
    (naming the compression settings), both on the wire over the file
    itself; then, on the wire that [pwr.CompressWire] returned, the
    container and one message per block hash, in the order of the hashes.
    A run that dies has written a beginning of that; a run that returns has
    written all of it. *)
Theorem sign_writes_in_order (W : Type) (h : handler Ev W) (w : W)
        (g : Globals) (output signature : string) :
  sign_behaviour output signature
    (outcome_of (run h (sign g output signature) w))
    (trace_of (run h (sign g output signature) w))
  /\ (wire_writes (trace_of (run h (sign g output signature) w)) = []
      \/ exists signatureWriter sigWire compression container hashes,
          begins (wire_writes (trace_of (run h (sign g output signature) w)))
            (signature_writes (wire.NewWriteContext signatureWriter) sigWire
               compression container hashes)
          /\ (outcome_of (run h (sign g output signature) w) = Done tt ->
              wire_writes (trace_of (run h (sign g output signature) w)) =
              signature_writes (wire.NewWriteContext signatureWriter) sigWire
                compression container hashes)).
Proof.
  split.
  - apply sign_run.
  - apply (sign_writes (sign_run h w g output signature)).
Qed.

(** ** [cp.Do] *)

Section DoFacts.
Variable error : Type.
Variable Error : error -> string.
Variable errors_New : string -> error.
Variable dl_IsIntegrityError : error -> bool.
Variable Context : Type.
Variable CopyParams : Type.
Variable W : Type.
Variable h : handler (cp.Ev error Context CopyParams) W.

Lemma Do_run (w : W) (ctx : Context) (params : CopyParams)
      (srcPath destPath : string) (resume : bool) :
  exists r,
    outcome_of (run h (cp.Do Error errors_New dl_IsIntegrityError
                             ctx params srcPath destPath resume) w) = Done r
    /\ cp.Do_behaviour Error errors_New dl_IsIntegrityError ctx params srcPath destPath resume
         r (trace_of (run h (cp.Do Error errors_New dl_IsIntegrityError
                                   ctx params srcPath destPath resume) w)).
Proof.
  unfold cp.Do, outcome_of, trace_of.
  simp Do_loop. cbn.
  answer h. destruct x as [e1|]; cbn; [|exists None; split; [reflexivity | constructor]].
  destruct (dl_IsIntegrityError e1) eqn:H1; cbn;
    [|exists (Some e1); split; [reflexivity | now constructor]].
  answer h. units. simp Do_loop. cbn.
  answer h. destruct x as [e2|]; cbn;
    [|exists None; split; [reflexivity | now apply cp.Do_copied_on_retry]].
  destruct (dl_IsIntegrityError e2) eqn:H2; cbn;
    [|exists (Some e2); split; [reflexivity | now apply cp.Do_failed_on_retry]].
  answer h. units. simp Do_loop. cbn.
  eexists. split; [reflexivity | now apply cp.Do_gave_up].
Qed.

(** C8. [Do] tries again only after an integrity error, and makes at most
    two tries: a copy that succeeds returns nil; an error that is no
    integrity error is returned as it is, with no further try; after two
    integrity errors [Do] gives up. *)
Theorem Do_retries_integrity_errors_only (w : W) (ctx : Context) (params : CopyParams)
        (srcPath destPath : string) (resume : bool) :
  exists r,
    outcome_of (run h (cp.Do Error errors_New dl_IsIntegrityError
                             ctx params srcPath destPath resume) w) = Done r
    /\ cp.Do_behaviour Error errors_New dl_IsIntegrityError ctx params srcPath destPath resume
         r (trace_of (run h (cp.Do Error errors_New dl_IsIntegrityError
                                   ctx params srcPath destPath resume) w))
    /\ cp.tries (trace_of (run h (cp.Do Error errors_New dl_IsIntegrityError
                                        ctx params srcPath destPath resume) w)) <= 2.
Proof.
  destruct (Do_run w ctx params srcPath destPath resume) as (r & Hr & Hb).
  exists r. repeat split; try assumption.
  destruct Hb; cbn; lia.
Qed.
End DoFacts.

(** When every copy fails its integrity check, [Do] tries twice and gives up. *)
Example Do_gives_up_after_two_tries :
  outcome_of (run always_corrupt
                (cp.Do (fun e => e) (fun s => s) (String.eqb "integrity")
                       tt tt "src" "dst" false) tt)
  = Done (Some "cp: too many errors, giving up")
  /\ cp.tries (trace_of (run always_corrupt
                           (cp.Do (fun e => e) (fun s => s) (String.eqb "integrity")
                                  tt tt "src" "dst" false) tt))
     = 2.
Proof. split; reflexivity. Qed.

(** An error that is no integrity error ends [Do] at the first try. *)
Example Do_returns_other_errors_at_once :
  outcome_of (run always_corrupt
                (cp.Do (fun e => e) (fun s => s) (String.eqb "checksum")
                       tt tt "src" "dst" false) tt)
  = Done (Some "integrity")
  /\ cp.tries (trace_of (run always_corrupt
                           (cp.Do (fun e => e) (fun s => s) (String.eqb "checksum")
                                  tt tt "src" "dst" false) tt))
     = 1.
Proof. split; reflexivity. Qed.

(** * Further properties *)

(** ** [verify]: the indexing *)

Lemma verify_loop_no_panic (refHashes hashes : list sync.BlockHash) :
  forall i, i + length refHashes <= length hashes ->
            forall m, verify_loop hashes i refHashes <> Panic m.
Proof.
  induction refHashes as [|refHash rest IH]; intros i Hlen m; simpl in *.
  - discriminate.
  - destruct (nth_error hashes i) as [hash|] eqn:Hnth;
      [| apply nth_error_None in Hnth; lia].
    unfold index. rewrite Hnth. simpl.
    destruct (sync.WeakHash refHash =? sync.WeakHash hash)%Z; simpl; [|discriminate].
    destruct (bytes_Equal (sync.StrongHash refHash) (sync.StrongHash hash)); simpl;
      [|discriminate].
    apply IH. lia.
Qed.

(** X1. The comparison loop of [verify] indexes [hashes] within its bounds
    whenever there are at least as many computed hashes as recorded ones,
    and takes [hashes[i]] out of range otherwise, once the hashes before
    agree; [verify] itself, which checks the lengths first, never panics. *)
Theorem verify_indexes_in_range (hashes refHashes : list sync.BlockHash) :
  (length refHashes <= length hashes ->
   forall m, verify_loop hashes 0 refHashes <> Panic m)
  /\ (length hashes < length refHashes ->
      firstn (length hashes) refHashes = hashes ->
      verify_loop hashes 0 refHashes = Panic (Lit "runtime error: index out of range"))
  /\ (forall (W : Type) (h : handler Ev W) (w : W) (g : Globals) (signature output : string) m,
         outcome_of (run h (verify g signature output) w) <> Panicked m).
Proof.
  split; [|split].
  - intros Hlen m. apply verify_loop_no_panic. simpl. exact Hlen.
  - intros Hlen Hpre.
    assert (Hgen : forall (hs refs : list sync.BlockHash) i,
               length hs < i + length refs ->
               i <= length hs ->
               firstn (length hs - i) refs = skipn i hs ->
               verify_loop hs i refs = Panic (Lit "runtime error: index out of range")).
    { intros hs refs. induction refs as [|r rest IH]; intros i Hl Hi Hp; simpl in *; [lia|].
      destruct (nth_error hs i) as [x|] eqn:Hnth.
      - assert (Hlt : i < length hs) by (apply nth_error_Some; congruence).
        rewrite (skipn_nth_error _ _ Hnth) in Hp.
        destruct (length hs - i) as [|n] eqn:Hn; [lia|]. simpl in Hp.
        injection Hp as -> Hp.
        unfold index. rewrite Hnth. simpl. rewrite Z.eqb_refl. simpl.
        replace (bytes_Equal (sync.StrongHash x) (sync.StrongHash x)) with true
          by (symmetry; now apply bytes_Equal_iff).
        simpl. apply IH; try lia.
        replace (length hs - S i) with n by lia. exact Hp.
      - unfold index. rewrite Hnth. reflexivity. }
    apply Hgen; try lia. rewrite Nat.sub_0_r. exact Hpre.
  - intros W h w g signature output m Hp.
    pose proof (verify_run h w g signature output) as H.
    rewrite Hp in H. inversion H.
Qed.

Lemma verify_indexes_in_range_witness :
  verify_loop [block 7 [Byte.x01]] 0 [block 7 [Byte.x01]; block 8 [Byte.x02]]
  = Panic (Lit "runtime error: index out of range")
  /\ forall m, verify_loop [block 7 [Byte.x01]; block 8 [Byte.x02]] 0 [block 7 [Byte.x01]]
               <> Panic m.
Proof.
  split.
  - apply (proj1 (proj2 (verify_indexes_in_range
                           [block 7 [Byte.x01]] [block 7 [Byte.x01]; block 8 [Byte.x02]])));
      [simpl; lia | reflexivity].
  - apply (proj1 (verify_indexes_in_range
                    [block 7 [Byte.x01]; block 8 [Byte.x02]] [block 7 [Byte.x01]])).
    simpl. lia.
Defined.

(** ** [diff]: what it does not do, what it hands to [WriteRecipe] *)

Lemma target_no_check (target : string)
      (o : outcome (tlc.Container * list sync.BlockHash)) (tr : list (call Ev)) :
  diff_target_behaviour target o tr -> filter is_check_call tr = [].
Proof.
  intros H. destruct H as [| | ? ? ? ? ? Hw | ? ? ? ? ? Hr];
    [| | destruct Hw | destruct Hr]; reflexivity.
Qed.

Lemma written_no_check (g : Globals) (source recipe : string) (t : Z) (tc : tlc.Container)
      (ts : list sync.BlockHash) (rw sw : File) (tr : list (call Ev)) :
  diff_written g source recipe t tc ts rw sw tr -> filter is_check_call tr = [].
Proof. intros H. destruct H. reflexivity. Qed.

(** X2. Without the verify flag, a run of [diff] creates no temporary
    directory, applies no recipe and removes nothing; when it returns it
    has closed the signature file and then the recipe file, as its last
    two calls. *)
Theorem diff_unverified_checks_nothing (W : Type) (h : handler Ev W) (w : W)
        (g : Globals) (target source recipe : string) (brotliQuality : Z) :
  diff_verify (diffArgs g) = false ->
  filter is_check_call (trace_of (run h (diff g target source recipe brotliQuality) w)) = []
  /\ (outcome_of (run h (diff g target source recipe brotliQuality) w) = Done tt ->
      exists before recipeWriter signatureWriter closedSignature closedRecipe,
        trace_of (run h (diff g target source recipe brotliQuality) w)
        = before ++ [File_Close signatureWriter |-> closedSignature;
                     File_Close recipeWriter |-> closedRecipe]
        /\ In (os_Create recipe |-> inl recipeWriter) before
        /\ In (os_Create (recipe ++ ".sig")%string |-> inl signatureWriter) before).
Proof.
  intros Hflag.
  pose proof (diff_run h w g target source recipe brotliQuality) as H.
  revert H.
  generalize (outcome_of (run h (diff g target source recipe brotliQuality) w))
             (trace_of (run h (diff g target source recipe brotliQuality) w)).
  intros o trace H.
  destruct H as [? ? ? Ht|? ? ? ? ? Ht|? ? ? ? ? ? Ht|? ? ? ? ? ? ? Ht|? ? ? ? ? ? ? ? ? Ht
                 |? ? ? ? rw sw written cs cr _ Ht Hw| | | | ];
    try congruence;
    pose proof (target_no_check Ht) as Hn;
    (split; [| try discriminate]).
  1-5: cbn [filter is_check_call]; rewrite ?filter_app, Hn; reflexivity.
  - cbn [filter is_check_call]. rewrite !filter_app, Hn, (written_no_check Hw). reflexivity.
  - intros _. exists (time_Now |-> t :: tr ++ written), rw, sw, cs, cr.
    split; [|split].
    + cbn. rewrite <- app_assoc. reflexivity.
    + right. apply in_or_app. right. destruct Hw. cbn. auto.
    + right. apply in_or_app. right. destruct Hw. cbn. auto.
Qed.

Lemma diff_unverified_checks_nothing_witness :
  filter is_check_call
    (trace_of (run (scripted an_env) (diff (some_flags false) "old" "new" "patch.pwr" 1) 0%Z))
  = [].
Proof.
  apply (proj1 (@diff_unverified_checks_nothing Z (scripted an_env) 0%Z (some_flags false)
                  "old" "new" "patch.pwr" 1 eq_refl)).
Defined.

Lemma diff_contexts_built (g : Globals) (target source recipe : string)
      (o : outcome unit) (trace : list (call Ev)) :
  diff_behaviour g target source recipe o trace ->
  forall dctx, In dctx (recipe_contexts trace) ->
               exists tc ts sourceContainer, dctx = diff_context g source tc ts sourceContainer.
Proof.
  intros H dctx Hin. destruct H; trace_facts; read_trace;
    try (now destruct Hin);
    destruct Hin as [<-|[]]; do 3 eexists; reflexivity.
Qed.

(** X3. Whatever its [brotliQuality] argument, the context that [diff]
    hands to [WriteRecipe] asks for Brotli at the quality of the
    [--quality] flag, cut to 32 bits (so within the range of an int32),
    names [source] as the source path and starts with both byte counters
    at zero. *)
Theorem diff_context_uses_the_quality_flag (W : Type) (h : handler Ev W) (w : W)
        (g : Globals) (target source recipe : string) (brotliQuality : Z)
        (dctx : pwr.DiffContext) :
  In dctx (recipe_contexts (trace_of (run h (diff g target source recipe brotliQuality) w))) ->
  pwr.Compression dctx
  = {| pwr.Algorithm := pwr.CompressionAlgorithm_BROTLI;
       pwr.Quality := int32 (diff_quality (diffArgs g)) |}
  /\ (- 2 ^ 31 <= pwr.Quality (pwr.Compression dctx) < 2 ^ 31)%Z
  /\ ((- 2 ^ 31 <= diff_quality (diffArgs g) < 2 ^ 31)%Z ->
      pwr.Quality (pwr.Compression dctx) = diff_quality (diffArgs g))
  /\ pwr.SourcePath dctx = source
  /\ pwr.ReusedBytes dctx = 0%Z /\ pwr.FreshBytes dctx = 0%Z.
Proof.
  intros Hin.
  destruct (diff_contexts_built (diff_run h w g target source recipe brotliQuality) _ Hin)
    as (tc & ts & sc & ->).
  cbn [diff_context pwr.Compression pwr.Quality pwr.SourcePath pwr.ReusedBytes pwr.FreshBytes].
  unfold int32. repeat split; try reflexivity.
  - pose proof (Z.mod_pos_bound (diff_quality (diffArgs g) + 2 ^ 31) (2 ^ 32)). lia.
  - pose proof (Z.mod_pos_bound (diff_quality (diffArgs g) + 2 ^ 31) (2 ^ 32)). lia.
  - intros Hrange. rewrite Z.mod_small; lia.
Qed.

Lemma diff_context_uses_the_quality_flag_witness :
  pwr.Compression (diff_context (some_flags false) "new" tlc.empty [] a_container)
  = {| pwr.Algorithm := pwr.CompressionAlgorithm_BROTLI; pwr.Quality := int32 1 |}.
Proof.
  apply (@diff_context_uses_the_quality_flag Z (scripted an_env) 0%Z (some_flags false)
           "/dev/null" "new" "patch.pwr" 9
           (diff_context (some_flags false) "new" tlc.empty [] a_container)).
  cbn. left. reflexivity.
Defined.

(** ** [sign]: the errors it drops *)

Lemma failing_preamble_step (W : Type) (h : handler Ev W) (err : error)
      (X : Type) (e : Ev X) (w : W) :
  failing_preamble err h e w = (preamble_fails err e (fst (h _ e w)), snd (h _ e w)).
Proof. unfold failing_preamble. destruct (h X e w). reflexivity. Qed.

Lemma stream_failing_preamble (W : Type) (h : handler Ev W) (err : error)
      (sigWire : wire.WriteContext) (hashes : list sync.BlockHash) :
  forall w,
    run (failing_preamble err h)
        (stream_hashes
           (fun hash => trigger (WriteContext_WriteMessage sigWire
                                   (pwr.BlockHash (sync.WeakHash hash) (sync.StrongHash hash))))
           hashes) w
    = run h
        (stream_hashes
           (fun hash => trigger (WriteContext_WriteMessage sigWire
                                   (pwr.BlockHash (sync.WeakHash hash) (sync.StrongHash hash))))
           hashes) w.
Proof.
  induction hashes as [|hash rest IH]; intros w; [reflexivity|].
  cbn. rewrite failing_preamble_step. cbn.
  destruct (h _ (WriteContext_WriteMessage sigWire
                   (pwr.BlockHash (sync.WeakHash hash) (sync.StrongHash hash))) w)
    as [[e|] w1]; cbn; [reflexivity|].
  rewrite IH. reflexivity.
Qed.

(** X4. [sign] drops the errors of its first three writes: in an
    environment where writing the magic, the header and the container
    fails, [sign] ends exactly as it does where they succeed (it may well
    return), having attempted the same writes in the same order. *)
Theorem sign_drops_preamble_errors (W : Type) (h : handler Ev W) (w : W) (err : error)
        (g : Globals) (output signature : string) :
  outcome_of (run (failing_preamble err h) (sign g output signature) w)
  = outcome_of (run h (sign g output signature) w)
  /\ wire_writes (trace_of (run (failing_preamble err h) (sign g output signature) w))
     = wire_writes (trace_of (run h (sign g output signature) w)).
Proof.
  unfold sign, pwr_ComputeSignatureToWriter, outcome_of, trace_of.
  cbn -[stream_hashes].
  repeat (first [ rewrite failing_preamble_step
                | match goal with
                  | |- context [h ?X ?e ?w] =>
                      is_var w; destruct (h X e w) as [? ?]
                  end
                | split_answer ];
          cbn -[stream_hashes]); units;
    try (split; reflexivity).
  rewrite !run_bind, stream_failing_preamble.
  match goal with
  | |- context [run h (stream_hashes (fun hash => trigger (WriteContext_WriteMessage ?sw _)) ?l) ?w] =>
      destruct (stream_run h sw l w) as (r & w' & tr & Hrun & Hs)
  end.
  rewrite Hrun. destruct r as [e|]; cbn -[wire_writes].
  - repeat (first [ rewrite failing_preamble_step
                  | match goal with
                    | |- context [h ?X ?e ?w] =>
                        is_var w; destruct (h X e w) as [? ?]
                    end
                  | split_answer ];
            cbn -[wire_writes]); units.
    split; [reflexivity|].
    unfold wire_writes. autorewrite with trace. reflexivity.
  - repeat (first [ rewrite failing_preamble_step
                  | match goal with
                    | |- context [h ?X ?e ?w] =>
                        is_var w; destruct (h X e w) as [? ?]
                    end
                  | split_answer ];
            cbn -[wire_writes]); units;
      (split; [reflexivity|]);
      unfold wire_writes; autorewrite with trace; reflexivity.
Qed.

(** In the scripted environment, with the three writes failing, [sign]
    returns. *)
Example sign_returns_without_preamble :
  outcome_of (run (failing_preamble (Lit "disk full") (scripted an_env))
                  (sign (some_flags false) "new" "new.sig") 0%Z)
  = Done tt.
Proof. reflexivity. Qed.

(** ** [cp.Do]: the loop in general, the pauses *)

Section DoMoreFacts.
Variable error : Type.
Variable Error : error -> string.
Variable errors_New : string -> error.
Variable dl_IsIntegrityError : error -> bool.
Variable Context : Type.
Variable CopyParams : Type.
Variable W : Type.
Variable h : handler (cp.Ev error Context CopyParams) W.


(** X6. [Do] returns nil exactly when its last call of [Try] returned nil.
    It pauses ([retryCtx.Retry], with the error's text) once after every
    integrity error, also after the second one, when no try follows. *)
Theorem Do_pauses_after_each_integrity_error (w : W) (ctx : Context) (params : CopyParams)
        (srcPath destPath : string) (resume : bool) :
  exists r,
    outcome_of (run h (cp.Do Error errors_New dl_IsIntegrityError
                             ctx params srcPath destPath resume) w) = Done r
    /\ (r = None <->
        exists before,
          try_answers (trace_of (run h (cp.Do Error errors_New dl_IsIntegrityError
                                               ctx params srcPath destPath resume) w))
          = before ++ [None])
    /\ pauses (trace_of (run h (cp.Do Error errors_New dl_IsIntegrityError
                                      ctx params srcPath destPath resume) w))
       = flat_map (fun a => match a with
                            | Some e => if dl_IsIntegrityError e then [Error e] else []
                            | None => []
                            end)
           (try_answers (trace_of (run h (cp.Do Error errors_New dl_IsIntegrityError
                                                ctx params srcPath destPath resume) w))).
Proof.
  destruct (Do_run Error errors_New dl_IsIntegrityError h w ctx params srcPath destPath resume)
    as (r & Hr & Hb).
  exists r. split; [exact Hr|].
  destruct Hb as [|e He|e1 H1|e1 e2 H1 H2|e1 e2 H1 H2]; cbn;
    rewrite ?He, ?H1, ?H2; cbn; (split; [|reflexivity]).
  - split; [intros _; now exists [] | reflexivity].
  - split; [discriminate|]. intros [[|a [|b l]] Heq]; discriminate.
  - split; [intros _; now exists [Some e1] | reflexivity].
  - split; [discriminate|].
    intros [[|a [|b [|c l]]] Heq]; try discriminate.
  - split; [discriminate|].
    intros [[|a [|b [|c l]]] Heq]; try discriminate.
Qed.
End DoMoreFacts.

(** ** [cp.Try] *)

Section TryCloses.
Variable error : Type.
Variable errors_WithStack : error -> error.
Variable filepath_Dir : string -> string.
Variable Header : Type.
Variable Context : Type.
Variable CopyParams : Type.
Variable OnStart_set : CopyParams -> bool.
Variable OnStop_set : CopyParams -> bool.
Variable W : Type.
Variable h : handler (cp_Try.Ev error Header CopyParams) W.

Let Try := @cp_Try.Try error errors_WithStack filepath_Dir Header Context CopyParams
             OnStart_set OnStop_set.

(** One step along a run of [Try]: the answer of the environment, or the
    cases of a test; a callback is set or nil. *)
Ltac closing_step :=
  first
    [ match goal with
      | |- context [@h ?X ?e ?w] => is_var w; destruct (@h X e w) as [? ?]
      end
    | match goal with
      | s : cp_Try.FileStat |- _ => destruct s as [?size]
      end
    | match goal with
      | |- context [match ?x with _ => _ end] => is_var x; destruct x
      end
    | match goal with
      | |- context [Z.eqb ?a ?b] => is_var a; destruct (Z.eqb_spec a b); [subst a|]
      | |- context [Z.gtb ?a ?b] => destruct (Z.gtb_spec a b)
      end
    | match goal with
      | |- context [if OnStart_set ?p then _ else _] => destruct (OnStart_set p) eqn:?
      | |- context [if OnStop_set ?p then _ else _] => destruct (OnStop_set p) eqn:?
      end ].

(** X7. Whatever the environment answers and whether its callbacks are
    set or nil, [Try] has closed every file it opened when it returns or
    panics, the destination before the source: the closing calls are the
    last calls of the run, in the reverse order of the opening calls.  It
    panics only on a nil callback, with both files open until then: on a nil
    [OnStart] before any copy, on a nil [OnStop] after a copy without error
    and before the destination is truncated.  With both callbacks set it
    returns. *)
Theorem Try_closes_what_it_opened (w : W) (ctx : Context) (params : CopyParams)
        (srcPath destPath : string) (resume : bool) :
  let r := run h (Try ctx params srcPath destPath resume) w in
  cp_Try.closed (trace_of r) = rev (cp_Try.opened (trace_of r))
  /\ cp_Try.closed
       (firstn (length (trace_of r) - length (cp_Try.opened (trace_of r))) (trace_of r)) = []
  /\ match outcome_of r with
     | Done _ => True
     | Died _ => False
     | Panicked m =>
         m = cp_Try.nil_func_call
         /\ length (cp_Try.opened (trace_of r)) = 2
         /\ (OnStart_set params = false
             /\ cp_Try.starts (trace_of r) = []
             /\ cp_Try.copy_results (trace_of r) = []
             \/ OnStart_set params = true
                /\ OnStop_set params = false
                /\ cp_Try.copy_results (trace_of r) = [None]
                /\ cp_Try.stops (trace_of r) = 0
                /\ cp_Try.truncations (trace_of r) = [])
     end
  /\ (OnStart_set params = false -> cp_Try.copy_results (trace_of r) = [])
  /\ (OnStop_set params = false ->
      cp_Try.copy_results (trace_of r) = [None] ->
      outcome_of r = Panicked cp_Try.nil_func_call)
  /\ (OnStart_set params = true -> OnStop_set params = true ->
      exists err, outcome_of r = Done err).
Proof.
  intros r. subst r.
  match goal with
  | |- context [run h ?p ?w] =>
      let r := fresh "r" in
      let Hr := fresh "Hr" in
      remember (run h p w) as r eqn:Hr; revert r Hr
  end.
  unfold Try, cp_Try.Try, cp_Try.Try_copy, cp_Try.Try_check, cp_Try.progress,
    cp_Try.call_OnStart, cp_Try.call_OnStop.
  cbn. repeat (closing_step; cbn).
  all: intros ? ->; cbn.
  all: split; [reflexivity|]; split; [reflexivity|].
  all: split;
    [ first [ exact I
            | split; [reflexivity|]; split; [reflexivity|];
              first [ left; split; [reflexivity|]; split; reflexivity
                    | right; split; [reflexivity|]; split; [reflexivity|];
                      split; [reflexivity|]; split; reflexivity ] ] |].
  all: split; [intros Hnil; first [reflexivity | congruence] |].
  all: split; [intros Hnil Hcopy; first [reflexivity | discriminate Hcopy | congruence] |].
  all: intros Hstart Hstop; first [eexists; reflexivity | congruence].
Qed.
End TryCloses.

(** A run with [OnStop] nil: the copy is made, [Try] panics, and the two
    files are closed. *)
Lemma Try_closes_what_it_opened_witness :
  let r := run (cp_Try.unsized_source 5)
             (@cp_Try.Try string (fun e => e) (fun path => path) unit unit unit
                (fun _ => true) (fun _ => false) tt tt "http://host/file" "file" false)
             0%Z in
  outcome_of r = Panicked cp_Try.nil_func_call
  /\ cp_Try.copy_results (trace_of r) = [None]
  /\ cp_Try.closed (trace_of r)
     = [cp_Try.DestHandle {| fd := 2; file_name := "file" |};
        cp_Try.SrcHandle (cp_Try.HTTPFile 0)].
Proof.
  split; [|split; reflexivity].
  destruct (@Try_closes_what_it_opened string (fun e => e) (fun path => path) unit unit unit
              (fun _ => true) (fun _ => false) Z (cp_Try.unsized_source 5) 0%Z tt tt
              "http://host/file" "file" false) as (_ & _ & _ & _ & Hpanic & _).
  apply Hpanic; reflexivity.
Defined.

Section TryFacts.
Variable error : Type.
Variable errors_WithStack : error -> error.
Variable filepath_Dir : string -> string.
Variable Header : Type.
Variable Context : Type.
Variable CopyParams : Type.
Variable W : Type.
Variable h : handler (cp_Try.Ev error Header CopyParams) W.

(** The properties below are of [Try] with both callbacks of [params]
    set. *)
Let Try := @cp_Try.Try error errors_WithStack filepath_Dir Header Context CopyParams
             (fun _ => true) (fun _ => true).

(** One step along a run of [Try]: the answer of the environment, or the
    cases of a test. *)
Ltac try_step :=
  first
    [ match goal with
      | |- context [@h ?X ?e ?w] => is_var w; destruct (@h X e w) as [? ?]
      end
    | match goal with
      | s : cp_Try.FileStat |- _ => destruct s as [?size]
      end
    | match goal with
      | |- context [match ?x with _ => _ end] => is_var x; destruct x
      end
    | match goal with
      | |- context [Z.eqb ?a ?b] => is_var a; destruct (Z.eqb_spec a b); [subst a|]
      | |- context [Z.gtb ?a ?b] => destruct (Z.gtb_spec a b)
      end ].

(** Goes along every path of a run of [Try]; the goal is left to be shown
    of what each path gives. *)
Ltac try_paths :=
  match goal with
  | |- context [run h ?p ?w] =>
      let r := fresh "r" in
      let Hr := fresh "Hr" in
      remember (run h p w) as r eqn:Hr; revert r Hr
  end;
  unfold Try, cp_Try.Try, cp_Try.Try_copy, cp_Try.Try_check, cp_Try.progress,
    cp_Try.call_OnStart, cp_Try.call_OnStop;
  cbn; repeat (try_step; cbn);
  intros ? ->; cbn.

(** Decides the tests on sizes and offsets that are left in a goal. *)
Ltac decide_sizes :=
  repeat (match goal with
          | |- context [Z.eqb ?a ?b] => destruct (Z.eqb_spec a b)
          | |- context [Z.gtb ?a ?b] => destruct (Z.gtb_spec a b)
          end; try lia; cbn).

(** X8. [Try] truncates the destination in two places only, and in this
    order: to the size [Stat] reported, when that size is positive and
    [io.Copy] returned no error; and to nothing, when the integrity check
    failed.  The check is made at most once, on the destination, with the
    reported size (-1 for a reported size of 0); when it fails [Try] returns
    its error wrapped by [errors.WithStack]. *)
Theorem Try_truncates_to_size_or_to_nothing (w : W) (ctx : Context) (params : CopyParams)
        (srcPath destPath : string) (resume : bool) :
  let r := run h (Try ctx params srcPath destPath resume) w in
  cp_Try.truncations (trace_of r)
  = match cp_Try.copy_results (trace_of r) with
    | [None] => flat_map (fun size => if (size >? 0)%Z then [(destPath, size)] else [])
                  (cp_Try.stat_sizes (trace_of r))
    | _ => []
    end
    ++ flat_map (fun c => match snd c with Some _ => [(destPath, 0%Z)] | None => [] end)
         (cp_Try.integrity_checks (trace_of r))
  /\ (forall total file a, In (total, file, a) (cp_Try.integrity_checks (trace_of r)) ->
        file = destPath
        /\ (exists size, In size (cp_Try.stat_sizes (trace_of r))
                         /\ total = if (size =? 0)%Z then (-1)%Z else size)
        /\ match a with
           | Some e => outcome_of r = Done (Some (errors_WithStack e))
           | None => True
           end)
  /\ length (cp_Try.integrity_checks (trace_of r)) <= 1.
Proof.
  intros r. subst r. try_paths.
  all: decide_sizes.
  all: split; [reflexivity | split; [| lia]].
  all: intros total file a Hin; try contradiction.
  all: destruct Hin as [Hin|[]]; inversion Hin; subst; clear Hin.
  all: split; [reflexivity | split; [| exact I || reflexivity]].
  all: eexists; split; [left; reflexivity | decide_sizes; reflexivity].
Qed.

(** X9. [Try] calls [io.Copy] at most once, into the destination it
    opened, and [params.OnStart] exactly as often, just before; it calls
    [params.OnStop] only after a copy that returned no error.  [OnStart] is
    told the size [Stat] reported, or 0 when that size is not positive, and
    an initial progress that is the progress the writer reports before any
    byte is copied. *)
Theorem Try_copies_at_most_once (w : W) (ctx : Context) (params : CopyParams)
        (srcPath destPath : string) (resume : bool) :
  let tr := trace_of (run h (Try ctx params srcPath destPath resume) w) in
  length (cp_Try.copy_results tr) <= 1
  /\ length (cp_Try.starts tr) = length (cp_Try.copy_results tr)
  /\ cp_Try.stops tr
     = length (filter (fun a => match a with None => true | Some _ => false end)
                 (cp_Try.copy_results tr))
  /\ map (fun cw => cp_Try.cw_callback cw 0%Z) (cp_Try.copy_writers tr)
     = map fst (cp_Try.starts tr)
  /\ (forall cw, In cw (cp_Try.copy_writers tr) ->
                 In (cp_Try.DestHandle (cp_Try.cw_writer cw)) (cp_Try.opened tr))
  /\ (forall p total, In (p, total) (cp_Try.starts tr) ->
                      exists size, In size (cp_Try.stat_sizes tr) /\ total = Z.max size 0).
Proof.
  intros tr. subst tr. try_paths.
  all: decide_sizes.
  all: rewrite ?Z.add_0_r.
  all: split; [lia | split; [reflexivity | split; [reflexivity | split; [reflexivity |]]]].
  all: split; [intros cw Hin; try contradiction; destruct Hin as [<-|[]]; cbn; auto |].
  all: intros p total Hin; try contradiction.
  all: destruct Hin as [Hin|[]]; inversion Hin; subst; clear Hin.
  all: eexists; split; [left; reflexivity | lia].
Qed.

(** X10. [Try] seeks in the destination only to resume: first to its
    end, and then, only if it holds more than the size reported, back to
    its start.  The source is sought at most once, to the offset the last
    seek in the destination answered, and the initial progress given to
    [OnStart] counts from that offset.  Without [resume] nothing is sought
    and the progress counts from 0. *)
Theorem Try_resumes_where_the_destination_ends (w : W) (ctx : Context)
        (params : CopyParams) (srcPath destPath : string) (resume : bool) :
  let tr := trace_of (run h (Try ctx params srcPath destPath resume) w) in
  let startOffset := match rev (cp_Try.dest_seeks tr) with
                     | [] => 0%Z
                     | (_, _, answered) :: _ => answered
                     end in
  (resume = false -> cp_Try.dest_seeks tr = [])
  /\ map fst (cp_Try.dest_seeks tr)
     = firstn (length (cp_Try.dest_seeks tr))
         [(0%Z, cp_Try.io_SeekEnd); (0%Z, cp_Try.io_SeekStart)]
  /\ (cp_Try.src_seeks tr = []
      \/ cp_Try.dest_seeks tr <> []
         /\ cp_Try.src_seeks tr = [(startOffset, cp_Try.io_SeekStart)])
  /\ (forall p total, In (p, total) (cp_Try.starts tr) ->
                      p = cp_Try.Zero \/ p = cp_Try.Ratio startOffset total).
Proof.
  intros tr; subst tr. try_paths.
  all: split; [try discriminate; reflexivity|].
  all: split; [reflexivity|].
  all: split; [first [left; reflexivity | right; split; [discriminate | reflexivity]] |].
  all: intros p total Hin; try contradiction.
  all: destruct Hin as [Hin|[]]; inversion Hin; subst; clear Hin; auto.
Qed.

(** X11. When [Try] returns no error, either [io.Copy] ran once and
    returned no error, or the run resumed and found all the bytes already
    there; no integrity check failed, and the last call before the files
    are closed reports the copy with [comm.Statf]. *)
Theorem Try_succeeds_after_a_copy_or_with_all_there (w : W) (ctx : Context)
        (params : CopyParams) (srcPath destPath : string) (resume : bool) :
  let r := run h (Try ctx params srcPath destPath resume) w in
  outcome_of r = Done None ->
  (cp_Try.copy_results (trace_of r) = [None]
   /\ ~ In "All %s already there" (cp_Try.infos (trace_of r))
   \/ cp_Try.copy_results (trace_of r) = []
      /\ resume = true
      /\ In "All %s already there" (cp_Try.infos (trace_of r)))
  /\ (forall total file a, In (total, file, a) (cp_Try.integrity_checks (trace_of r)) ->
                           a = None)
  /\ exists format args dest closed_dest src closed_src,
      skipn (length (trace_of r) - 3) (trace_of r)
      = [cp_Try.comm_Statf error Header CopyParams format args |-> tt;
         cp_Try.dest_Close error Header CopyParams dest |-> closed_dest;
         cp_Try.src_Close error Header CopyParams src |-> closed_src].
Proof.
  intros r. subst r. try_paths.
  all: intros Hdone; try discriminate Hdone.
  all: split;
    [ first [ left; split; [reflexivity | cbn; intuition discriminate]
            | right; split; [reflexivity | split; [reflexivity | cbn; auto 10]] ] |].
  all: split; [intros total file a Hin; try contradiction;
               destruct Hin as [Hin|[]]; inversion Hin; reflexivity |].
  all: repeat match goal with u : unit |- _ => destruct u end.
  all: do 6 eexists; reflexivity.
Qed.


(** X12. Where the source has no known size (its [Stat] reports 0 or
    -1), the [resume] argument changes nothing: [Try] runs as it does
    without it. *)
Theorem Try_does_not_resume_without_a_size (w : W) (ctx : Context) (params : CopyParams)
        (srcPath destPath : string) (resume : bool) :
  (forall src w', match fst (h (cp_Try.src_Stat error Header CopyParams src) w') with
                  | inl stats => cp_Try.stat_Size stats = 0%Z \/ cp_Try.stat_Size stats = (-1)%Z
                  | inr _ => True
                  end) ->
  run h (Try ctx params srcPath destPath resume) w
  = run h (Try ctx params srcPath destPath false) w.
Proof.
  intros Hsize.
  unfold Try, cp_Try.Try, cp_Try.Try_copy, cp_Try.Try_check, cp_Try.progress,
    cp_Try.call_OnStart, cp_Try.call_OnStop. cbn.
  repeat (match goal with
          | |- ?a = ?a => fail 1
          | |- context [@h ?X (cp_Try.src_Stat _ _ _ ?src) ?w0] =>
              is_var w0; generalize (Hsize src w0);
              destruct (@h X (cp_Try.src_Stat error Header CopyParams src) w0) as [[[size]|?] ?];
              cbn; [intros [->| ->]|intros _]
          | _ => try_step
          end; cbn).
  all: reflexivity.
Qed.
End TryFacts.

Lemma Try_does_not_resume_without_a_size_witness :
  run (cp_Try.unsized_source 5)
    (@cp_Try.Try string (fun e => e) (fun path => path) unit unit unit
       (fun _ => true) (fun _ => true) tt tt "http://host/file" "file" true) 0%Z
  = run (cp_Try.unsized_source 5)
      (@cp_Try.Try string (fun e => e) (fun path => path) unit unit unit
         (fun _ => true) (fun _ => true) tt tt "http://host/file" "file" false) 0%Z.
Proof.
  apply (@Try_does_not_resume_without_a_size string (fun e => e) (fun path => path)
           unit unit unit Z (cp_Try.unsized_source 5) 0%Z tt tt "http://host/file" "file" true).
  intros src w'. left. reflexivity.
Defined.

Lemma Try_succeeds_after_a_copy_or_with_all_there_witness :
  let r := run (cp_Try.unsized_source 5)
             (@cp_Try.Try string (fun e => e) (fun path => path) unit unit unit
                (fun _ => true) (fun _ => true) tt tt "http://host/file" "file" true) 0%Z in
  outcome_of r = Done None /\ cp_Try.copy_results (trace_of r) = [None].
Proof.
  split; [reflexivity|].
  destruct (@Try_succeeds_after_a_copy_or_with_all_there string (fun e => e) (fun path => path)
              unit unit unit Z (cp_Try.unsized_source 5) 0%Z tt tt "http://host/file" "file"
              true eq_refl) as [[[Hcopy _]|[Hcopy _]] _];
    [exact Hcopy | vm_compute in Hcopy; discriminate Hcopy].
Defined.


(** ** [fetch.FetchCollection] *)

Lemma accumulated_cons (games page : list fetch.CollectionGame)
      (pages : list (list fetch.CollectionGame)) :
  Z.of_nat (length page) <> 0%Z ->
  fetch.accumulated games (page :: pages)
  = (games ++ page) :: fetch.accumulated (games ++ page) pages.
Proof.
  destruct page as [|g page]; cbn; [intros Hn; now destruct Hn | reflexivity].
Qed.

Lemma accumulated_nil (games page : list fetch.CollectionGame)
      (pages : list (list fetch.CollectionGame)) :
  Z.of_nat (length page) = 0%Z ->
  page = [] /\ fetch.accumulated games (page :: pages) = fetch.accumulated games pages.
Proof.
  destruct page as [|g page]; cbn; [split; reflexivity | lia].
Qed.

Lemma accumulated_last (pages : list (list fetch.CollectionGame)) :
  forall games,
    fetch.accumulated games pages = [] /\ concat pages = []
    \/ exists earlier, fetch.accumulated games pages = earlier ++ [games ++ concat pages].
Proof.
  induction pages as [|page pages IH]; intros games.
  - left. split; reflexivity.
  - destruct page as [|g page].
    + exact (IH games).
    + right. cbn [fetch.accumulated concat].
      destruct (IH (games ++ g :: page)) as [[Hacc Hcat]|[earlier Hacc]].
      * exists []. rewrite Hacc, Hcat, app_nil_r. reflexivity.
      * exists ((games ++ g :: page) :: earlier). rewrite Hacc, <- app_assoc. reflexivity.
Qed.

Section FetchFacts.
Variable error : Type.
Variable errors_New : string -> error.
Variable errors_WithStack : error -> error.
Variable Conn : Type.
Variable Client : Type.
Variable W : Type.
Variable h : handler (fetch.Ev error Conn Client) W.

Ltac fetch_answer :=
  match goal with
  | |- context [@h ?X ?e ?w] =>
      let x := fresh "x" in
      let w' := fresh "w" in
      destruct (@h X e w) as [x w']
  end.

(** One more turn of the loop: the calls [pre] of a turn that fetched the
    page [games] and went on, before a run of the loop from the next page. *)
Lemma loop_behaviour_next (collection : fetch.Collection) (page offset : Z)
      (games : list fetch.CollectionGame)
      (pre tr : list (call (fetch.Ev error Conn Client)))
      (o : outcome (fetch.Collection + error)) :
  Z.of_nat (length games) <> 0%Z ->
  ~ (offset + Z.of_nat (length games) >= fetch.GamesCount collection)%Z ->
  fetch.pool_calls pre = [] ->
  fetch.collections_answered pre = [] ->
  fetch.saved_alone pre = [] ->
  fetch.pages_requested pre = [page] ->
  fetch.page_answers pre = [games] ->
  fetch.saves pre
  = [{| fetch.Record_ := fetch.set_CollectionGames (fetch.CollectionGames collection ++ games)
                           collection;
        fetch.Assocs := ["CollectionGames"];
        fetch.DontCull := [fetch.itchio_CollectionGame] |}] ->
  fetch.client_errors pre = [] ->
  Forall (fun a => a = None) (fetch.notify_answers pre) ->
  fetch.loop_behaviour errors_WithStack
    (fetch.set_CollectionGames (fetch.CollectionGames collection ++ games) collection)
    (page + 1) (offset + Z.of_nat (length games)) o tr ->
  fetch.loop_behaviour errors_WithStack collection page offset o (pre ++ tr).
Proof.
  intros Hgames Hmore Hpool Hcoll Halone Hpages Hanswers Hsaves Herrors Hnotify
         (Hp & Hc & Hs & Hreq & Hone & Hbound & Hsaved & Ho).
  unfold fetch.loop_behaviour.
  unfold fetch.pool_calls, fetch.collections_answered, fetch.saved_alone,
    fetch.pages_requested, fetch.page_answers, fetch.saves, fetch.client_errors,
    fetch.notify_answers in *.
  rewrite !flat_map_app.
  rewrite Hpool, Hcoll, Halone, Hpages, Hanswers, Hsaves, Herrors, Hp, Hc, Hs.
  cbn [app length]. cbn in Hbound.
  repeat split.
  - cbn. f_equal. exact Hreq.
  - lia.
  - lia.
  - rewrite (@accumulated_cons _ _ _ Hgames). cbn [map]. f_equal.
    rewrite Hsaved. reflexivity.
  - destruct o as [[collection'|err]|m|m]; try contradiction.
    + destruct Ho as (-> & Hnone & Hall). cbn [concat].
      split; [unfold fetch.set_CollectionGames; cbn; now rewrite app_assoc|].
      split; [exact Hnone|]. apply Forall_app; split; assumption.
    + destruct Ho as [(e & He & -> & Hall)|(e & before & He & -> & Hlast & Hall)].
      * left. exists e. split; [exact He|]. split; [reflexivity|].
        apply Forall_app; split; assumption.
      * right. exists e, (flat_map
                            (fun c => match call_event c in fetch.Ev _ _ _ X
                                            return X -> list (option error) with
                                      | fetch.FetchCollectionYield_Notify _ _ _ _ => fun r => [r]
                                      | _ => fun _ => []
                                      end (call_answer c)) pre ++ before).
        split; [exact He|]. split; [reflexivity|].
        split; [rewrite Hlast; now rewrite app_assoc|].
        apply Forall_app; split; assumption.
Qed.

Lemma FetchCollection_loop_run (client : Client) (conn : Conn)
      (params : fetch.FetchCollectionParams) (collection : fetch.Collection)
      (page offset : Z) :
  forall w : W,
    fetch.loop_behaviour errors_WithStack collection page offset
      (outcome_of (run h (fetch.FetchCollection_loop errors_WithStack client conn params
                            collection page offset) w))
      (trace_of (run h (fetch.FetchCollection_loop errors_WithStack client conn params
                          collection page offset) w)).
Proof.
  funelim (fetch.FetchCollection_loop errors_WithStack client conn params collection page offset);
    intros w.
  clear Heqcall. unfold outcome_of, trace_of. cbn.
  do 2 (fetch_answer; cbn). destruct x0 as [gamesRes|err]; cbn.
  - destruct (Z.eq_dec _ 0) as [Hnone|Hgames]; cbn.
    + destruct (@accumulated_nil (fetch.CollectionGames collection) _ [] Hnone) as [Hempty Hacc].
      unfold fetch.loop_behaviour; cbn. rewrite Hempty. cbn. rewrite app_nil_r.
      destruct collection. cbn.
      repeat split; auto; lia.
    + fetch_answer; cbn.
      assert (Hone : fetch.loop_behaviour errors_WithStack collection page offset
                (Done (inl (fetch.set_CollectionGames
                              (fetch.CollectionGames collection
                               ++ fetch.page_CollectionGames gamesRes) collection)))
                [fetch.consumer_Infof error Conn Client "Fetching page %d" [page] |-> x;
                 fetch.client_GetCollectionGames error Conn client (fetch.CollectionID params)
                   page |-> inl gamesRes;
                 fetch.models_MustSave error Client conn
                   {| fetch.Record_ := fetch.set_CollectionGames
                                         (fetch.CollectionGames collection
                                          ++ fetch.page_CollectionGames gamesRes) collection;
                      fetch.Assocs := ["CollectionGames"];
                      fetch.DontCull := [fetch.itchio_CollectionGame] |} |-> x0]).
      { unfold fetch.loop_behaviour; cbn -[fetch.accumulated].
        rewrite (@accumulated_cons _ _ [] Hgames). cbn. rewrite app_nil_r.
        repeat split; auto; lia. }
      destruct (Z_ge_dec _ _) as [Hall|Hmore]; cbn; [exact Hone|].
      destruct (Z.ltb _ _); cbn; [exact Hone|]. clear Hone.
      fetch_answer; cbn. destruct x1 as [stored|]; cbn.
      * do 2 (fetch_answer; cbn). destruct x2 as [e|]; cbn.
        -- unfold fetch.loop_behaviour; cbn -[fetch.accumulated].
           rewrite (@accumulated_cons _ _ [] Hgames). cbn.
           repeat split; auto; try lia.
           right. exists e, []. repeat split; auto.
        -- match goal with
           | |- context [run h (fetch.FetchCollection_loop _ _ _ _ _ _ _) ?w'] =>
               specialize (H tt (inl gamesRes) gamesRes Hgames tt Hmore None w');
               destruct (run h (fetch.FetchCollection_loop _ _ _ _ _ _ _) w') as [[o ?] tr]
           end.
           unfold outcome_of, trace_of in H. cbn [fst snd] in *.
           eapply (@loop_behaviour_next collection page offset
                     (fetch.page_CollectionGames gamesRes) [_; _; _; _; _; _] tr o);
             try reflexivity; try assumption.
           cbn. auto.
      * match goal with
        | |- context [run h (fetch.FetchCollection_loop _ _ _ _ _ _ _) ?w'] =>
            specialize (H tt (inl gamesRes) gamesRes Hgames tt Hmore None w');
            destruct (run h (fetch.FetchCollection_loop _ _ _ _ _ _ _) w') as [[o ?] tr]
        end.
        unfold outcome_of, trace_of in H. cbn [fst snd] in *.
        eapply (@loop_behaviour_next collection page offset
                  (fetch.page_CollectionGames gamesRes) [_; _; _; _] tr o);
          try reflexivity; try assumption.
        cbn. auto.
  - unfold fetch.loop_behaviour; cbn.
    repeat split; auto; try lia.
    left. exists err. repeat split; auto.
Qed.

Ltac fetch_step :=
  first
    [ match goal with
      | |- context [@h ?X ?e ?w] =>
          is_var w; let x := fresh "x" in destruct (@h X e w) as [x ?]
      end
    | match goal with
      | |- context [match ?x with _ => _ end] => is_var x; destruct x
      end ].

(** The list [l] without its last element. *)
Ltac but_last l :=
  lazymatch l with
  | [?a] => let T := type of a in constr:(@nil T)
  | ?a :: ?rest => let r := but_last rest in constr:(a :: r)
  | ?x ++ [_] => constr:(x)
  end.

Ltac solve_last :=
  match goal with
  | |- ?l = ?b ++ [_] => let p := but_last l in unify b p; reflexivity
  end.

Ltac all_none :=
  repeat (apply Forall_cons; [reflexivity|]);
  first [ apply Forall_nil
        | assumption
        | apply Forall_app; split; [assumption | repeat constructor] ].

Lemma FetchCollection_body_run (conn : Conn) (params : fetch.FetchCollectionParams) (w : W) :
  fetch.body_behaviour errors_New errors_WithStack params
    (outcome_of (run h (fetch.FetchCollection_body errors_New errors_WithStack Client conn params) w))
    (trace_of (run h (fetch.FetchCollection_body errors_New errors_WithStack Client conn params) w)).
Proof.
  unfold fetch.FetchCollection_body, outcome_of, trace_of.
  destruct (Z.eqb_spec (fetch.CollectionID params) 0) as [Hzero|Hid]; cbn.
  - unfold fetch.body_behaviour; cbn. repeat split; auto; contradiction.
  - repeat (fetch_step; cbn).
    all: try rewrite run_bind.
    all: try match goal with
      | |- context [run h (fetch.FetchCollection_loop _ ?client _ _ ?c ?page ?offset) ?w'] =>
          pose proof (FetchCollection_loop_run client conn params c page offset w') as Hloop;
          destruct (run h (fetch.FetchCollection_loop _ client _ _ c page offset) w')
            as [[o ?] tr];
          unfold outcome_of, trace_of in Hloop; cbn [fst snd] in Hloop;
          destruct Hloop as (Hp & Hc & Hs & Hreq & Hone & Hbound & Hsaved & Ho);
          destruct o as [[collection'|err]|m|m]; try contradiction;
          [ destruct Ho as (-> & Hce & Hall)
          | destruct Ho as [(e & Hce & -> & Hall)|(e & before & Hce & -> & Hlast & Hall)] ];
          cbn
      end.
    all: repeat (fetch_step; cbn).
    all: unfold fetch.body_behaviour, fetch.page_saves, fetch.final_save.
    all: unfold fetch.pool_calls, fetch.collections_answered, fetch.saved_alone,
      fetch.pages_requested, fetch.page_answers, fetch.saves, fetch.client_errors,
      fetch.notify_answers in *.
    all: cbn -[fetch.accumulated] in *.
    all: rewrite ?flat_map_app; cbn -[fetch.accumulated].
    all: rewrite ?app_nil_r.
    all: try rewrite Hp; try rewrite Hc; try rewrite Hs; try rewrite Hsaved;
      try rewrite Hce; try rewrite Hlast.
    all: try rewrite Z.sub_0_r in Hbound.
    all: cbn -[fetch.accumulated].
    all: repeat match goal with |- _ /\ _ => split end.
    all: try reflexivity.
    all: try lia.
    all: try assumption.
    all: try (intros; contradiction).
    all: try (intros Hnil; first [discriminate Hnil | split; reflexivity]).
    all: try all_none.
    all: try (intros c' [<-|[]];
              split; [first [assumption | lia] |];
              split; [first [left; reflexivity | right; reflexivity] |];
              intros [res Hres]; first [discriminate Hres | reflexivity]).
    all: try (right; left; eexists; split; [reflexivity|]; split; [reflexivity|]; all_none).
    all: try (right; right; eexists; eexists; split; [reflexivity|];
              split; [reflexivity|]; split; [solve_last | all_none]).
    all: eexists; eexists; solve_last.
Qed.

Lemma FetchCollection_run (params : fetch.FetchCollectionParams) (w : W) :
  fetch.FetchCollection_behaviour errors_New errors_WithStack params
    (outcome_of (run h (fetch.FetchCollection errors_New errors_WithStack Conn Client params) w))
    (trace_of (run h (fetch.FetchCollection errors_New errors_WithStack Conn Client params) w)).
Proof.
  unfold fetch.FetchCollection, fetch.FetchCollection_behaviour, outcome_of, trace_of. cbn.
  fetch_answer. rewrite run_defer.
  pose proof (FetchCollection_body_run x params w0) as Hbody.
  destruct (run h (fetch.FetchCollection_body _ _ _ x params) w0) as [[o w1] inner].
  unfold outcome_of, trace_of in Hbody. cbn [fst snd] in Hbody.
  destruct o as [r|m|m]; cbn.
  - fetch_answer. cbn. exists x, x0, inner. split; [reflexivity | exact Hbody].
  - destruct Hbody as (_ & _ & _ & _ & _ & _ & _ & []).
  - fetch_answer. cbn. exists x, x0, inner. split; [reflexivity | exact Hbody].
Qed.

(** The calls on the pool apart, a run shows what its body shows. *)
Lemma around_the_body (conn : Conn) (put : unit)
      (inner : list (call (fetch.Ev error Conn Client))) :
  let tr := (fetch.DBPool_Get error Conn Client |-> conn)
              :: inner ++ [fetch.DBPool_Put error Client conn |-> put] in
  fetch.pages_requested tr = fetch.pages_requested inner
  /\ fetch.page_answers tr = fetch.page_answers inner
  /\ fetch.saves tr = fetch.saves inner
  /\ fetch.saved_alone tr = fetch.saved_alone inner
  /\ fetch.collections_answered tr = fetch.collections_answered inner
  /\ fetch.notify_answers tr = fetch.notify_answers inner
  /\ fetch.client_errors tr = fetch.client_errors inner.
Proof.
  unfold fetch.pages_requested, fetch.page_answers, fetch.saves, fetch.saved_alone,
    fetch.collections_answered, fetch.notify_answers, fetch.client_errors.
  cbn. rewrite !flat_map_app. cbn. rewrite !app_nil_r. repeat split.
Qed.

(** X13. [FetchCollection] takes a connection from the pool first and
    puts that connection back last, whatever happens in between, also when
    it panics (the API answered without a collection); it touches the pool
    nowhere else and never ends the process.  With a collection id of 0 it
    does nothing else and returns the error "collectionId must be
    non-zero". *)
Theorem FetchCollection_puts_the_connection_back (params : fetch.FetchCollectionParams)
        (w : W) :
  let r := run h (fetch.FetchCollection errors_New errors_WithStack Conn Client params) w in
  exists conn put inner,
    trace_of r = (fetch.DBPool_Get error Conn Client |-> conn)
                   :: inner ++ [fetch.DBPool_Put error Client conn |-> put]
    /\ fetch.pool_calls inner = []
    /\ (forall m, outcome_of r <> Died m)
    /\ (forall m, outcome_of r = Panicked m ->
          exists before client,
            inner = before ++ [fetch.client_GetCollection error Conn client
                                 (fetch.CollectionID params) |-> inl None])
    /\ (fetch.CollectionID params = 0%Z ->
        inner = []
        /\ outcome_of r = Done (inr (errors_New "collectionId must be non-zero"))).
Proof.
  intros r. destruct (FetchCollection_run params w) as (conn & put & inner & Htr & Hb).
  fold r in Htr, Hb.
  destruct Hb as (Hpool & _ & _ & _ & _ & _ & Hzero & Ho).
  exists conn, put, inner.
  split; [exact Htr|]. split; [exact Hpool|].
  split; [intros m Hm; rewrite Hm in Ho; exact Ho|].
  split; [intros m Hm; rewrite Hm in Ho; exact Ho | exact Hzero].
Qed.

(** X14. The pages [FetchCollection] asks for are 1, 2, 3, ... in this
    order, without a gap; it asks for none before the API has answered
    with the collection, and for no more than that collection's
    [GamesCount] (one page at least): the loop ends, whatever the API
    answers. *)
Theorem FetchCollection_asks_for_pages_in_order (params : fetch.FetchCollectionParams)
        (w : W) :
  let tr := trace_of (run h (fetch.FetchCollection errors_New errors_WithStack Conn Client params)
                        w) in
  fetch.pages_requested tr = fetch.pages_from 1 (length (fetch.pages_requested tr))
  /\ match fetch.collections_answered tr with
     | [] => fetch.pages_requested tr = []
     | c :: others =>
         others = []
         /\ (Z.of_nat (length (fetch.pages_requested tr)) <= Z.max 1 (fetch.GamesCount c))%Z
     end.
Proof.
  intros tr. destruct (FetchCollection_run params w) as (conn & put & inner & Htr & Hb).
  fold tr in Htr.
  destruct (around_the_body conn put inner) as (Hpages & _ & _ & _ & Hcoll & _).
  rewrite <- Htr in Hpages, Hcoll. rewrite Hpages, Hcoll.
  destruct Hb as (_ & Hreq & Hone & _ & Hnone & Hsome & _).
  split; [exact Hreq|].
  destruct (fetch.collections_answered inner) as [|c others].
  - apply Hnone. reflexivity.
  - split.
    + destruct others; [reflexivity | cbn in Hone; lia].
    + apply (Hsome c). left. reflexivity.
Qed.

(** X15. What [FetchCollection] saves.  The collection the API answered
    is saved alone first, without its games.  Then comes one save after
    each page that has games, of the collection with all the games fetched
    so far, culling no [CollectionGame]; and when the loop is left by
    [break] a last save of the collection with the games of all pages, which
    culls.  A run that returns a result has made all these saves; and the
    last save holds the very record of the save before it, if pages were
    saved. *)
Theorem FetchCollection_saves_every_page (params : fetch.FetchCollectionParams) (w : W) :
  let r := run h (fetch.FetchCollection errors_New errors_WithStack Conn Client params) w in
  let pages := fetch.page_answers (trace_of r) in
  match fetch.collections_answered (trace_of r) with
  | [] => fetch.saved_alone (trace_of r) = [] /\ fetch.saves (trace_of r) = []
  | [c] =>
      fetch.saved_alone (trace_of r) = [fetch.set_CollectionGames [] c]
      /\ (fetch.saves (trace_of r) = fetch.page_saves c pages
          \/ fetch.saves (trace_of r) = fetch.page_saves c pages ++ [fetch.final_save c pages])
      /\ match outcome_of r with
         | Done (inl _) =>
             fetch.saves (trace_of r)
             = fetch.page_saves c pages ++ [fetch.final_save c pages]
         | _ => True
         end
      /\ (fetch.page_saves c pages = [] /\ concat pages = []
          \/ exists earlier,
               fetch.page_saves c pages
               = earlier ++ [{| fetch.Record_ := fetch.Record_ (fetch.final_save c pages);
                                fetch.Assocs := ["CollectionGames"];
                                fetch.DontCull := [fetch.itchio_CollectionGame] |}])
  | _ => False
  end.
Proof.
  intros r pages. subst pages.
  destruct (FetchCollection_run params w) as (conn & put & inner & Htr & Hb).
  fold r in Htr, Hb.
  destruct (around_the_body conn put inner) as (_ & Hpages & Hsaves & Halone & Hcoll & _).
  rewrite <- Htr in Hpages, Hsaves, Halone, Hcoll.
  rewrite Hpages, Hsaves, Halone, Hcoll.
  destruct Hb as (_ & _ & Hone & Hfirst & Hnone & Hsome & _).
  destruct (fetch.collections_answered inner) as [|c [|c' others]].
  - split; [exact Hfirst | apply Hnone; reflexivity].
  - destruct (Hsome c (or_introl eq_refl)) as (_ & Hsaved & Hdone).
    split; [exact Hfirst|]. split; [exact Hsaved|]. split.
    + destruct (outcome_of r) as [[res|err]|m|m]; try exact I.
      apply Hdone. exists res. reflexivity.
    + unfold fetch.page_saves, fetch.final_save. cbn [fetch.Record_].
      destruct (accumulated_last (fetch.page_answers inner) []) as [[Hacc Hcat]|[earlier Hacc]].
      * left. rewrite Hacc. split; [reflexivity | exact Hcat].
      * right. rewrite Hacc, map_app. cbn [map app]. eexists. reflexivity.
  - cbn in Hone. lia.
Qed.

(** X16. The errors of [FetchCollection].  It returns an error in three
    cases only: the collection id is 0; the API client answered with an
    error, which is returned wrapped once by [errors.WithStack]; a
    notification failed, and its error is returned wrapped twice.  In the
    last two cases the failing call is the last one that can fail: every
    notification before it went through and the client never failed
    before.  A run that returns a result has seen no error at all. *)
Theorem FetchCollection_wraps_the_first_error (params : fetch.FetchCollectionParams) (w : W) :
  let r := run h (fetch.FetchCollection errors_New errors_WithStack Conn Client params) w in
  match outcome_of r with
  | Done (inl _) =>
      fetch.client_errors (trace_of r) = []
      /\ Forall (fun a => a = None) (fetch.notify_answers (trace_of r))
  | Done (inr err) =>
      (fetch.CollectionID params = 0%Z
       /\ err = errors_New "collectionId must be non-zero")
      \/ (exists e, fetch.client_errors (trace_of r) = [e]
                    /\ err = errors_WithStack e
                    /\ Forall (fun a => a = None) (fetch.notify_answers (trace_of r)))
      \/ (exists e before,
             fetch.client_errors (trace_of r) = []
             /\ err = errors_WithStack (errors_WithStack e)
             /\ fetch.notify_answers (trace_of r) = before ++ [Some e]
             /\ Forall (fun a => a = None) before)
  | _ => True
  end.
Proof.
  intros r.
  destruct (FetchCollection_run params w) as (conn & put & inner & Htr & Hb).
  fold r in Htr, Hb.
  destruct (around_the_body conn put inner) as (_ & _ & _ & _ & _ & Hnotify & Herrors).
  rewrite <- Htr in Hnotify, Herrors. rewrite Hnotify, Herrors.
  destruct Hb as (_ & _ & _ & _ & _ & _ & _ & Ho).
  destruct (outcome_of r) as [[res|err]|m|m]; try exact I.
  - destruct Ho as (Hce & Hall & _). split; assumption.
  - exact Ho.
Qed.
End FetchFacts.

Example FetchCollection_of_three_games :
  let r := run fetch.two_a_page
             (fetch.FetchCollection (fun m => m) (fun e => e) Z Z
                {| fetch.ProfileID := 1; fetch.CollectionID := 5 |}) 0%Z in
  outcome_of r = Done (inl fetch.EmptyResult)
  /\ fetch.pages_requested (trace_of r) = [1; 2]%Z
  /\ map (fun s => fetch.CollectionGames (fetch.Record_ s)) (fetch.saves (trace_of r))
     = [[11; 12]; [11; 12; 13]; [11; 12; 13]]%Z.
Proof.
  vm_compute. repeat split.
Qed.

(** ** [main]: the set-up of the command line *)

(** X17. What [main] does before it dispatches depends on [app.Parse].
    When kingpin ends the process inside [Parse] (the help and the version
    flags), nothing more is called: [comm] is not configured.  Whenever
    [Parse] returns, with or without an error (which comes back untouched),
    [main] configures [comm] exactly once: progress is off when
    [--noprogress] or [--quiet] is given or the output is no terminal, and
    [--verbose] counts only without [--quiet]; the other flags are passed
    as they are.  The log then has time stamps exactly when [--timestamps]
    is given, and it says "Not a terminal" exactly when that is so. *)
Theorem main_setup_configures_comm (W : Type) (h : handler cmdline.Ev W) (w : W) :
  let r := run h cmdline.main_setup w in
  exists answer,
    cmdline.parsed (trace_of r) = [answer]
    /\ match answer with
       | inr shown =>
           outcome_of r = Died (Lit shown)
           /\ cmdline.configured (trace_of r) = []
           /\ cmdline.log_flags (trace_of r) = []
           /\ cmdline.terminals (trace_of r) = []
           /\ cmdline.printed (trace_of r) = []
       | inl (args, cmd, err) =>
           exists terminal,
             cmdline.terminals (trace_of r) = [terminal]
             /\ cmdline.configured (trace_of r)
                = [(cmdline.noProgress args || cmdline.quiet args || negb terminal,
                    cmdline.quiet args,
                    cmdline.verbose args && negb (cmdline.quiet args),
                    cmdline.json args,
                    cmdline.panic args)]
             /\ cmdline.log_flags (trace_of r)
                = [if cmdline.timestamps args
                   then [cmdline.log_Ldate; cmdline.log_Ltime; cmdline.log_Lmicroseconds]
                   else []]
             /\ cmdline.printed (trace_of r)
                = (if terminal then [] else ["Not a terminal, disabling progress indicator"])
             /\ exists args',
                 outcome_of r = Done (args', cmd, err)
                 /\ cmdline.noProgress args'
                    = cmdline.noProgress args || cmdline.quiet args || negb terminal
                 /\ cmdline.verbose args' = cmdline.verbose args && negb (cmdline.quiet args)
       end.
Proof.
  intros r. subst r. unfold cmdline.main_setup, outcome_of, trace_of. cbn.
  do 4 (answer h; cbn).
  destruct x2 as [[[args cmd] err]|shown]; cbn.
  - exists (inl (args, cmd, err)).
    destruct args as [j q v t n p i a]. cbn.
    destruct t, q; cbn; answer h; cbn; answer h; cbn.
    all: destruct x3; cbn; repeat (answer h; cbn).
    all: split; [reflexivity|].
    all: eexists; split; [reflexivity|].
    all: repeat match goal with |- _ /\ _ => split end; try reflexivity.
    all: try (rewrite ?orb_true_r, ?orb_false_r, ?andb_true_r, ?andb_false_r; reflexivity).
    all: eexists; split; [reflexivity|]; cbn;
      rewrite ?orb_true_r, ?orb_false_r, ?andb_true_r, ?andb_false_r; split; reflexivity.
  - exists (inr shown). repeat split.
Qed.

(** ** The files of [apply], [sign] and [verify] *)

Lemma streamed_files (sigWire : wire.WriteContext) (hashes : list sync.BlockHash)
      (r : option error) (tr : list (call Ev)) :
  streamed sigWire hashes r tr -> opened_files tr = [] /\ closed_files tr = [].
Proof.
  induction 1 as [|hash rest e|hash rest r tr Hs [IHo IHc]].
  - split; reflexivity.
  - split; reflexivity.
  - unfold opened_files, closed_files in *. autorewrite with trace.
    rewrite IHo, IHc. split; reflexivity.
Qed.

(** X18. [apply] never closes the recipe it opens, and [sign] never
    closes the signature file it creates (it closes the compressed wire
    only): no run of either calls [Close] on a file, and one that gets past
    the opening leaves exactly one file open.  [verify] closes the signature
    it opened exactly when it returns; when it ends the process instead, the
    deferred [Close] is not run. *)
Theorem apply_and_sign_leave_their_file_open (W : Type) (h : handler Ev W) (w : W)
        (g : Globals) (recipe target output signature : string) :
  (closed_files (trace_of (run h (apply g recipe target output) w)) = []
   /\ (outcome_of (run h (apply g recipe target output) w) = Done tt ->
       length (opened_files (trace_of (run h (apply g recipe target output) w))) = 1))
  /\ (closed_files (trace_of (run h (sign g output signature) w)) = []
      /\ (outcome_of (run h (sign g output signature) w) = Done tt ->
          length (opened_files (trace_of (run h (sign g output signature) w))) = 1))
  /\ match outcome_of (run h (verify g signature output) w) with
     | Done _ =>
         closed_files (trace_of (run h (verify g signature output) w))
         = opened_files (trace_of (run h (verify g signature output) w))
         /\ length (opened_files (trace_of (run h (verify g signature output) w))) = 1
     | _ => closed_files (trace_of (run h (verify g signature output) w)) = []
     end.
Proof.
  split; [|split].
  - destruct (apply_run h w g recipe target output); cbn; split;
      try reflexivity; discriminate.
  - destruct (sign_run h w g output signature);
      unfold sign_header, sign_container, closed_files, opened_files;
      autorewrite with trace;
      repeat match goal with
             | Hs : streamed _ _ _ _ |- _ =>
                 destruct (streamed_files Hs) as [Ho Hc];
                 unfold closed_files, opened_files in Ho, Hc; rewrite ?Ho, ?Hc; clear Hs
             end;
      cbn; split; try reflexivity; discriminate.
  - destruct (verify_run h w g signature output);
      unfold verify_reads, verify_hashes; cbn; try reflexivity.
    split; reflexivity.
Qed.

(** ** What [sign] and [diff] ask of the walker *)

Lemma streamed_only_hashes (sigWire : wire.WriteContext) (hashes : list sync.BlockHash)
      (r : option error) (tr : list (call Ev)) :
  streamed sigWire hashes r tr ->
  walk_calls tr = [] /\
  forall x, In x (wire_writes tr) -> exists hash, x = WMessage sigWire (block_message hash).
Proof.
  unfold walk_calls, wire_writes.
  induction 1 as [|hash rest e|hash rest r tr Hs [IHw IHx]]; autorewrite with trace;
    cbn [walk_call wire_write_of app].
  - split; [reflexivity | intros x []].
  - split; [reflexivity | intros x [<-|[]]; now exists hash].
  - split; [exact IHw | intros x [<-|Hin]; [now exists hash | now apply IHx]].
Qed.

(** What [sign] walks, and where the container it writes comes from. *)
Lemma sign_walks (output signature : string) (o : outcome unit) (tr : list (call Ev)) :
  sign_behaviour output signature o tr ->
  walk_calls tr = [(output, None)]
  /\ forall sigWire c,
      In (WMessage sigWire (pwr.Container c)) (wire_writes tr) ->
      In (tlc_Walk output None |-> inl c) tr.
Proof.
  intros H.
  destruct H;
    repeat match goal with
      | H : streamed _ _ _ _ |- _ => destruct (streamed_only_hashes H) as [? ?]; clear H
      end;
    unfold walk_calls, wire_writes, sign_header, sign_container in *;
    autorewrite with trace;
    repeat match goal with
      | H : pick walk_call _ = _ |- _ => rewrite H
      end;
    cbn [walk_call wire_write_of app]; (split; [reflexivity|]);
    intros sigWire' c' Hin;
    repeat (destruct Hin as [Hin|Hin]; [try discriminate Hin|]);
    try (now destruct Hin);
    try (injection Hin as <- <-; cbn; auto).
  all: apply in_app_or in Hin as [Hin|Hin];
    [ match goal with
      | Hh : forall x, In x _ -> exists _, _ |- _ =>
          destruct (Hh _ Hin) as [hash Hhash]; discriminate Hhash
      end
    | now destruct Hin ].
Qed.

(** What [diff] walks, and where the source container it hands to
    [WriteRecipe] comes from. *)
Lemma diff_walks (g : Globals) (target source recipe : string)
      (o : outcome unit) (tr : list (call Ev)) :
  diff_behaviour g target source recipe o tr ->
  (forall p, In p (walk_calls tr) ->
             p = (target, Some filterDirs) \/ p = (source, Some filterDirs))
  /\ forall dctx, In dctx (recipe_contexts tr) ->
       In (tlc_Walk source (Some filterDirs) |-> inl (pwr.SourceContainer dctx)) tr.
Proof.
  intros H. destruct H; trace_facts; (split; [intros p Hin | intros d Hin]); read_trace;
    repeat match goal with
      | H : In _ (_ ++ _) |- _ => apply in_app_or in H as [H|H]
      | H : In _ (_ :: _) |- _ => destruct H as [H|H]
      | H : In _ [] |- _ => destruct H
      end;
    auto.
  all: try (subst d; cbn; right; apply in_or_app; right; cbn; auto; fail).
  all: subst d; cbn; right; apply in_or_app; right; apply in_or_app; left; exact Hs.
Qed.

(** A run of [diff] that returns has called [WriteRecipe] once. *)
Lemma diff_returns_with_a_context (g : Globals) (target source recipe : string)
      (tr : list (call Ev)) :
  diff_behaviour g target source recipe (Done tt) tr ->
  exists dctx, recipe_contexts tr = [dctx].
Proof.
  intros H. inversion H; subst;
    match goal with
    | Hw : diff_written _ _ _ _ _ _ _ _ _ |- _ => destruct Hw
    end;
    trace_facts; read_trace; eexists; reflexivity.
Qed.

(** X19. What the code asks of [tlc.Walk].  Every run of [sign] walks
    once, its directory, with a nil filter; the container it writes to the
    wire is the one this walk answered, and a run that returns has written
    one.  [diff] never walks with a nil filter: each of its walks (of the
    target, when it is a directory, and of the source) passes [filterDirs];
    the source container of the context it hands to [WriteRecipe] is what
    the walk of the source answered, and a run that returns has walked the
    source and handed over one context. *)
Theorem sign_walks_unfiltered_diff_filtered (W : Type) (h : handler Ev W) (g : Globals)
        (tree signature target recipe : string) (brotliQuality : Z) (w1 w2 : W) :
  let signed := run h (sign g tree signature) w1 in
  let diffed := run h (diff g target tree recipe brotliQuality) w2 in
  walk_calls (trace_of signed) = [(tree, None)]
  /\ (forall sigWire c,
         In (WMessage sigWire (pwr.Container c)) (wire_writes (trace_of signed)) ->
         In (tlc_Walk tree None |-> inl c) (trace_of signed))
  /\ (outcome_of signed = Done tt ->
      exists sigWire c,
        In (WMessage sigWire (pwr.Container c)) (wire_writes (trace_of signed)))
  /\ (forall p, In p (walk_calls (trace_of diffed)) ->
                p = (target, Some filterDirs) \/ p = (tree, Some filterDirs))
  /\ (forall dctx, In dctx (recipe_contexts (trace_of diffed)) ->
         In (tlc_Walk tree (Some filterDirs) |-> inl (pwr.SourceContainer dctx))
            (trace_of diffed))
  /\ (outcome_of diffed = Done tt ->
      In (tree, Some filterDirs) (walk_calls (trace_of diffed))
      /\ exists dctx, recipe_contexts (trace_of diffed) = [dctx]).
Proof.
  intros signed diffed.
  pose proof (sign_run h w1 g tree signature) as Hsign. fold signed in Hsign.
  pose proof (diff_run h w2 g target tree recipe brotliQuality) as Hdiff. fold diffed in Hdiff.
  destruct (sign_walks Hsign) as [Hsw Hsc].
  destruct (diff_walks Hdiff) as [Hdw Hdc].
  split; [exact Hsw|]. split; [exact Hsc|]. split.
  - intros Hdone.
    destruct (sign_writes Hsign) as [Hnone|(f & sw & comp & c & hashes & _ & Hall)].
    + rewrite Hdone in Hsign. inversion Hsign; subst.
      match goal with
      | Htr : _ = trace_of signed |- _ => rewrite <- Htr in Hnone
      end.
      unfold wire_writes, sign_header, sign_container in Hnone.
      autorewrite with trace in Hnone. discriminate Hnone.
    + exists sw, c. rewrite (Hall Hdone). unfold signature_writes. cbn. auto.
  - split; [exact Hdw|]. split; [exact Hdc|].
    intros Hdone. rewrite Hdone in Hdiff.
    destruct (diff_returns_with_a_context Hdiff) as [dctx Hctx].
    split; [|exists dctx; exact Hctx].
    assert (Hin : In dctx (recipe_contexts (trace_of diffed)))
      by (rewrite Hctx; left; reflexivity).
    specialize (Hdc dctx Hin).
    unfold walk_calls, pick. apply in_flat_map.
    eexists. split; [exact Hdc | cbn; left; reflexivity].
Qed.
